(** * Contacts API: the contact repository, its routes and the birthday logic

    A shallow embedding of [src/database/models.py], [src/repository/contacts.py],
    [src/routes/contacts.py] and of the part of [src/schemas.py] they use.

    - Python's [datetime] is a record of seven integers with the range checks
      of its constructor; arithmetic goes through proleptic Gregorian ordinals.
    - The relational store is two tables (users, contacts) with a primary-key
      sequence; SQLAlchemy's session is a unit of work whose pending changes
      reach the tables on [db_commit].
    - Repository and route functions live in a small state-and-exception monad
      over the store, the session and the two clocks. *)

From Stdlib Require Import ZArith List Bool Ascii String Lia.
Import ListNotations.

Local Open Scope string_scope.
Local Open Scope Z_scope.

Set Implicit Arguments.

(* ================================================================== *)
(** ** Exceptions and outcomes *)

(** The exceptions the modelled code can raise. [HTTPException] is the one
    the routes raise themselves; the others come from [datetime], from
    request validation and from the database driver. *)
Inductive exn : Type :=
| ValueError
| OverflowError
| IntegrityError
| DataError
| InvalidRequestError
| RequestValidationError
| HTTPException (status_code : Z) (detail : string).

Inductive outcome (A : Type) : Type :=
| Return (a : A)
| Raise (e : exn).

Arguments Return {A} a.
Arguments Raise {A} e.

Definition HTTP_404_NOT_FOUND : Z := 404.
Definition HTTP_409_CONFLICT : Z := 409.

(* ================================================================== *)
(** ** Python's datetime *)

Module PyDatetime.

Record datetime : Type := mk_datetime {
  year : Z; month : Z; day : Z;
  hour : Z; minute : Z; second : Z; microsecond : Z
}.

Definition MINYEAR : Z := 1.
Definition MAXYEAR : Z := 9999.

Definition is_leap (y : Z) : bool :=
  (y mod 4 =? 0) && (negb (y mod 100 =? 0) || (y mod 400 =? 0)).

(** [_DAYS_IN_MONTH], indexed by month number. *)
Definition DAYS_IN_MONTH (m : Z) : Z :=
  match m with
  | 1 => 31 | 2 => 28 | 3 => 31 | 4 => 30 | 5 => 31 | 6 => 30
  | 7 => 31 | 8 => 31 | 9 => 30 | 10 => 31 | 11 => 30 | 12 => 31
  | _ => 0
  end.

(** [_DAYS_BEFORE_MONTH], the running sum of the table above. *)
Definition DAYS_BEFORE_MONTH (m : Z) : Z :=
  match m with
  | 1 => 0 | 2 => 31 | 3 => 59 | 4 => 90 | 5 => 120 | 6 => 151
  | 7 => 181 | 8 => 212 | 9 => 243 | 10 => 273 | 11 => 304 | 12 => 334
  | _ => 0
  end.

Definition days_before_year (y : Z) : Z :=
  let y1 := y - 1 in y1 * 365 + y1 / 4 - y1 / 100 + y1 / 400.

Definition days_in_month (y m : Z) : Z :=
  if (m =? 2) && is_leap y then 29 else DAYS_IN_MONTH m.

Definition days_before_month (y m : Z) : Z :=
  DAYS_BEFORE_MONTH m + (if (2 <? m) && is_leap y then 1 else 0).

Definition ymd2ord (y m d : Z) : Z :=
  days_before_year y + days_before_month y m + d.

Definition toordinal (t : datetime) : Z := ymd2ord (year t) (month t) (day t).

Definition check_date_fields (y m d : Z) : bool :=
  (MINYEAR <=? y) && (y <=? MAXYEAR) &&
  (1 <=? m) && (m <=? 12) &&
  (1 <=? d) && (d <=? days_in_month y m).

Definition check_time_fields (h mi s us : Z) : bool :=
  (0 <=? h) && (h <=? 23) && (0 <=? mi) && (mi <=? 59) &&
  (0 <=? s) && (s <=? 59) && (0 <=? us) && (us <=? 999999).

(** The values a [datetime] object can hold. *)
Definition valid (t : datetime) : bool :=
  check_date_fields (year t) (month t) (day t) &&
  check_time_fields (hour t) (minute t) (second t) (microsecond t).

(** [datetime(y, m, d, h, mi, s, us)]: [ValueError] outside the ranges. *)
Definition datetime_new (y m d h mi s us : Z) : outcome datetime :=
  if check_date_fields y m d && check_time_fields h mi s us
  then Return (mk_datetime y m d h mi s us)
  else Raise ValueError.

(** [t.replace(year=y)] builds a new object through the constructor. *)
Definition replace_year (t : datetime) (y : Z) : outcome datetime :=
  datetime_new y (month t) (day t) (hour t) (minute t) (second t) (microsecond t).

(** Comparison is that of the tuples of fields. *)
Fixpoint lex_compare (a b : list Z) : comparison :=
  match a, b with
  | x :: a', y :: b' =>
      match x ?= y with Eq => lex_compare a' b' | c => c end
  | [], [] => Eq
  | [], _ :: _ => Lt
  | _ :: _, [] => Gt
  end.

Definition fields (t : datetime) : list Z :=
  [year t; month t; day t; hour t; minute t; second t; microsecond t].

Definition cmp (a b : datetime) : comparison := lex_compare (fields a) (fields b).

Definition lt (a b : datetime) : bool :=
  match cmp a b with Lt => true | _ => false end.

Definition le (a b : datetime) : bool :=
  match cmp a b with Gt => false | _ => true end.

(** Microseconds since midnight, and since the start of day 0. *)
Definition US_PER_DAY : Z := 86400 * 1000000.

Definition time_us (t : datetime) : Z :=
  ((hour t * 60 + minute t) * 60 + second t) * 1000000 + microsecond t.

Definition total_us (t : datetime) : Z := toordinal t * US_PER_DAY + time_us t.

(** [(a - b).days]: a [timedelta] is normalised with floor division, so
    its [days] is the floor of the difference in days. *)
Definition sub_days (a b : datetime) : Z := (total_us a - total_us b) / US_PER_DAY.

(** The calendar day after [t], same time of day. *)
Definition next_day (t : datetime) : datetime :=
  let '(y, m, d) :=
    if day t <? days_in_month (year t) (month t) then (year t, month t, day t + 1)
    else if month t <? 12 then (year t, month t + 1, 1)
    else (year t + 1, 1, 1) in
  mk_datetime y m d (hour t) (minute t) (second t) (microsecond t).

Definition MAXORDINAL : Z := 3652059.

(** [t + timedelta(days=n)]: the date whose ordinal is [n] more, with
    [OverflowError] past 9999-12-31. *)
Definition add_days (t : datetime) (n : nat) : outcome datetime :=
  if toordinal t + Z.of_nat n <=? MAXORDINAL
  then Return (Nat.iter n next_day t)
  else Raise OverflowError.

(** PostgreSQL's [to_char(t, 'MM-DD')]: month and day of the month, each
    as two decimal digits. *)
Definition digit (n : Z) : ascii := ascii_of_nat (48 + Z.to_nat n).

Definition two_digits (n : Z) : string :=
  String (digit (n / 10)) (String (digit (n mod 10)) EmptyString).

Definition to_char_MM_DD (t : datetime) : string :=
  (two_digits (month t) ++ "-" ++ two_digits (day t))%string.

End PyDatetime.

Import PyDatetime.

(* ================================================================== *)
(** ** SQL text operators *)

Module Sql.

Definition is_upper (c : ascii) : bool :=
  (65 <=? nat_of_ascii c)%nat && (nat_of_ascii c <=? 90)%nat.

(** Case folding of one character: the letters A-Z go to a-z. This is
    the folding of the database on ASCII text; see [ascii_only]. *)
Definition lower_ascii (c : ascii) : ascii :=
  if is_upper c then ascii_of_nat (nat_of_ascii c + 32) else c.

Fixpoint lower (s : string) : string :=
  match s with
  | EmptyString => EmptyString
  | String c s' => String (lower_ascii c) (lower s')
  end.

Definition escape_char : ascii := "\"%char.
Definition any_string : ascii := "%"%char.
Definition any_char : ascii := "_"%char.

(** [text LIKE pattern] with the default escape character. [%] matches
    any run of characters, [_] any one character, and the escape
    character makes the next pattern character literal. [None] is the
    error PostgreSQL raises when the match reaches an escape character
    that ends the pattern. *)
Fixpoint like (p : string) : string -> option bool :=
  match p with
  | EmptyString =>
      fun t => match t with EmptyString => Some true | String _ _ => Some false end
  | String c p' =>
      if Ascii.eqb c escape_char then
        match p' with
        | EmptyString =>
            fun t => match t with EmptyString => Some false | String _ _ => None end
        | String d p'' =>
            fun t => match t with
                     | EmptyString => Some false
                     | String x t' => if Ascii.eqb x d then like p'' t' else Some false
                     end
        end
      else if Ascii.eqb c any_string then
        fix any (t : string) : option bool :=
          match like p' t with
          | Some true => Some true
          | None => None
          | Some false =>
              match t with
              | EmptyString => Some false
              | String _ t' => any t'
              end
          end
      else if Ascii.eqb c any_char then
        fun t => match t with EmptyString => Some false | String _ t' => like p' t' end
      else
        fun t => match t with
                 | EmptyString => Some false
                 | String x t' => if Ascii.eqb x c then like p' t' else Some false
                 end
  end.

(** [text ILIKE pattern]: both sides are folded to lower case first. *)
Definition ilike (text pattern : string) : outcome bool :=
  match like (lower pattern) (lower text) with
  | Some b => Return b
  | None => Raise DataError
  end.

(** [and_(a, b)], evaluated left to right and only as far as needed. *)
Definition and_ (a b : outcome bool) : outcome bool :=
  match a with
  | Return true => b
  | other => other
  end.

(** No escape character occurs in the string. *)
Fixpoint escape_free (s : string) : bool :=
  match s with
  | EmptyString => true
  | String c s' => negb (Ascii.eqb c escape_char) && escape_free s'
  end.

End Sql.

(* ================================================================== *)
(** ** Data model: [src/database/models.py] and [src/schemas.py] *)

Module User.
Record t : Type := mk {
  id : Z;
  username : string;
  email : string;
  password : string;
  refresh_token : option string;
  avatar : option string;
  confirmed : bool
}.
End User.

Module Contact.
(** A row of [contacts]. The nullable columns are options. *)
Record t : Type := mk {
  id : Z;
  firstname : string;
  lastname : string;
  email : string;
  phone : string;
  birthday : datetime;
  notes : option string;
  user_id : option Z;
  created_at : option datetime;
  updated_at : option datetime
}.
End Contact.

Module ContactModel.
(** The validated request body of create and update. *)
Record t : Type := mk {
  firstname : string;
  lastname : string;
  birthday : datetime;
  phone : string;
  email : string;
  notes : string
}.
End ContactModel.

Module ContactResponse.
Record t : Type := mk {
  id : Z;
  firstname : string;
  lastname : string;
  birthday : datetime;
  phone : string;
  email : string;
  notes : option string;
  days_to_next_birthday : Z;
  created_at : option datetime;
  updated_at : option datetime
}.
End ContactResponse.

(* ================================================================== *)
(** ** The store and the session *)

(** The two tables, the sequence behind [contacts.id], and the number of
    transactions committed so far (kept to tell whether an operation
    committed). *)
Record DB : Type := mk_DB {
  users : list User.t;
  contacts : list Contact.t;
  contacts_id_seq : Z;
  commit_count : nat
}.

(** The object built from the fields of a body and a [user_id], not yet
    in the table;
    its [id] and timestamps are filled in by the INSERT. *)
Record Transient : Type := mk_Transient {
  t_body : ContactModel.t;
  t_user_id : option Z
}.

(** An assignment to one mapped attribute of a contact. *)
Inductive attr : Type :=
| A_firstname (v : string)
| A_lastname (v : string)
| A_phone (v : string)
| A_email (v : string)
| A_birthday (v : datetime)
| A_notes (v : option string).

(** What a session holds until it is flushed. *)
Inductive pending : Type :=
| P_add (o : Transient)
| P_set (pk : Z) (a : attr)
| P_delete (pk : Z).

(** The unit of work: the pending changes in program order, and the
    primary keys the last flush gave to the added objects. *)
Record Session : Type := mk_Session {
  s_pending : list pending;
  s_keys : list Z
}.

Definition fresh_session : Session := mk_Session [] [].

Record St : Type := mk_St { db : DB; session : Session }.

(** [datetime.today()] of the application and [now()] of the database. *)
Record Env : Type := mk_Env { today : datetime; now : datetime }.

(* ================================================================== *)
(** ** The monad of request handlers *)

(** A computation reads the clocks, threads the store and the session, and
    either returns a value or raises. *)
Definition M (A : Type) : Type := Env -> St -> outcome A * St.

Definition ret {A} (a : A) : M A := fun _ s => (Return a, s).

Definition bind {A B} (m : M A) (f : A -> M B) : M B :=
  fun e s =>
    match m e s with
    | (Return a, s') => f a e s'
    | (Raise x, s') => (Raise x, s')
    end.

Definition raise {A} (x : exn) : M A := fun _ s => (Raise x, s).

Definition lift {A} (o : outcome A) : M A := fun _ s => (o, s).

Declare Scope monad_scope.
Delimit Scope monad_scope with monad.
Notation "x <- m ;; k" := (bind m (fun x => k))
  (at level 61, m at next level, right associativity) : monad_scope.
Notation "m ;; k" := (bind m (fun _ => k))
  (at level 61, right associativity) : monad_scope.
Local Open Scope monad_scope.

Definition datetime_today : M datetime := fun e s => (Return (today e), s).

(** A request gets a session of its own from [get_db], which is closed
    when the handler is done; what was not committed is lost. *)
Definition run_request {A} (m : M A) (e : Env) (d : DB) : outcome A * DB :=
  let (r, s) := m e (mk_St d fresh_session) in (r, db s).

(* ------------------------------------------------------------------ *)
(** *** Flushing the unit of work *)

Definition datetime_eqb (a b : datetime) : bool :=
  match cmp a b with Eq => true | _ => false end.

Definition option_eqb {A} (eqb : A -> A -> bool) (a b : option A) : bool :=
  match a, b with
  | Some x, Some y => eqb x y
  | None, None => true
  | _, _ => false
  end.

(** The row with one attribute assigned. *)
Definition set_attr (a : attr) (c : Contact.t) : Contact.t :=
  let '(Contact.mk i fn ln em ph bd nt uid ca ua) := c in
  match a with
  | A_firstname v => Contact.mk i v ln em ph bd nt uid ca ua
  | A_lastname v => Contact.mk i fn v em ph bd nt uid ca ua
  | A_phone v => Contact.mk i fn ln em v bd nt uid ca ua
  | A_email v => Contact.mk i fn ln v ph bd nt uid ca ua
  | A_birthday v => Contact.mk i fn ln em ph v nt uid ca ua
  | A_notes v => Contact.mk i fn ln em ph bd v uid ca ua
  end.

(** Whether the assignment is a net change of the row. *)
Definition attr_changes (a : attr) (c : Contact.t) : bool :=
  negb
    match a with
    | A_firstname v => String.eqb v (Contact.firstname c)
    | A_lastname v => String.eqb v (Contact.lastname c)
    | A_phone v => String.eqb v (Contact.phone c)
    | A_email v => String.eqb v (Contact.email c)
    | A_birthday v => datetime_eqb v (Contact.birthday c)
    | A_notes v => option_eqb String.eqb v (Contact.notes c)
    end.

(** [onupdate=func.now()]. *)
Definition touch (t : datetime) (c : Contact.t) : Contact.t :=
  let '(Contact.mk i fn ln em ph bd nt uid ca _) := c in
  Contact.mk i fn ln em ph bd nt uid ca (Some t).

(** UPDATE of the row with primary key [pk]: emitted only for a net
    change, and then it also refreshes [updated_at]. *)
Definition update_row (t : datetime) (pk : Z) (a : attr) (c : Contact.t) : Contact.t :=
  if (Contact.id c =? pk) && attr_changes a c then touch t (set_attr a c) else c.

(** The inserted row: [id] from the sequence, both timestamps from the
    column default [func.now()]. *)
Definition insert_row (t : datetime) (pk : Z) (o : Transient) : Contact.t :=
  let b := t_body o in
  Contact.mk pk (ContactModel.firstname b) (ContactModel.lastname b)
    (ContactModel.email b) (ContactModel.phone b) (ContactModel.birthday b)
    (Some (ContactModel.notes b)) (t_user_id o) (Some t) (Some t).

(** The foreign key [contacts.user_id -> users.id]. *)
Definition fk_user_ok (us : list User.t) (uid : option Z) : bool :=
  match uid with
  | None => true
  | Some i => existsb (fun u => User.id u =? i) us
  end.

(** One pending change applied to the tables: the keys it assigned, and
    the store afterwards. The list holds the rows of the table; the place
    of a row that an UPDATE has written is not fixed by the database, and
    no statement about an update relies on it. *)
Definition flush_one (t : datetime) (d : DB) (op : pending) : outcome (list Z) * DB :=
  match op with
  | P_add o =>
      let pk := contacts_id_seq d in
      if fk_user_ok (users d) (t_user_id o)
      then (Return [pk],
            mk_DB (users d) (contacts d ++ [insert_row t pk o]) (pk + 1) (commit_count d))
      else (Raise IntegrityError,
            mk_DB (users d) (contacts d) (pk + 1) (commit_count d))
  | P_set pk a =>
      (Return [],
       mk_DB (users d) (map (update_row t pk a) (contacts d))
         (contacts_id_seq d) (commit_count d))
  | P_delete pk =>
      (Return [],
       mk_DB (users d) (filter (fun c => negb (Contact.id c =? pk)) (contacts d))
         (contacts_id_seq d) (commit_count d))
  end.

Fixpoint flush (t : datetime) (ops : list pending) (d : DB) (keys : list Z)
  : outcome (list Z) * DB :=
  match ops with
  | [] => (Return keys, d)
  | op :: ops' =>
      match flush_one t d op with
      | (Return k, d') => flush t ops' d' (keys ++ k)
      | (Raise x, d') => (Raise x, d')
      end
  end.

Definition count_adds (ops : list pending) : nat :=
  List.length (filter (fun op => match op with P_add _ => true | _ => false end) ops).

(** [db.add(obj)]: the object becomes pending; the result identifies it
    among the objects added in this session. *)
Definition db_add (o : Transient) : M nat :=
  fun _ s =>
    let ss := session s in
    (Return (List.length (s_keys ss) + count_adds (s_pending ss))%nat,
     mk_St (db s) (mk_Session (s_pending ss ++ [P_add o]) (s_keys ss))).

(** Assignment to a mapped attribute of a persistent object. *)
Definition setattr (c : Contact.t) (a : attr) : M unit :=
  fun _ s =>
    let ss := session s in
    (Return tt,
     mk_St (db s) (mk_Session (s_pending ss ++ [P_set (Contact.id c) a]) (s_keys ss))).

(** [db.delete(obj)]. *)
Definition db_delete (c : Contact.t) : M unit :=
  fun _ s =>
    let ss := session s in
    (Return tt,
     mk_St (db s) (mk_Session (s_pending ss ++ [P_delete (Contact.id c)]) (s_keys ss))).

(** [db.commit()]: flush, then COMMIT. When the flush raises, the
    transaction is rolled back; only the sequence keeps its advance. *)
Definition db_commit : M unit :=
  fun e s =>
    let d := db s in
    let ss := session s in
    match flush (now e) (s_pending ss) d [] with
    | (Return keys, d') =>
        (Return tt,
         mk_St (mk_DB (users d') (contacts d') (contacts_id_seq d') (S (commit_count d')))
               (mk_Session [] (s_keys ss ++ keys)))
    | (Raise x, d') =>
        (Raise x,
         mk_St (mk_DB (users d) (contacts d) (contacts_id_seq d') (commit_count d))
               (mk_Session [] (s_keys ss)))
    end.

(** SELECT by primary key, as done when the attributes of a persistent
    object are loaded again. *)
Definition db_get (pk : Z) : M Contact.t :=
  fun _ s =>
    match find (fun c => Contact.id c =? pk) (contacts (db s)) with
    | Some c => (Return c, s)
    | None => (Raise InvalidRequestError, s)
    end.

(** [db.refresh(obj)] for an object that was added in this session. *)
Definition db_refresh (h : nat) : M Contact.t :=
  fun e s =>
    match nth_error (s_keys (session s)) h with
    | Some pk => db_get pk e s
    | None => (Raise InvalidRequestError, s)
    end.

(* ------------------------------------------------------------------ *)
(** *** Queries *)

(** [db.query(Contact).join(User)]: the pairs of a contact and the user
    row its [user_id] refers to. *)
Definition join (cs : list Contact.t) (us : list User.t) : list (Contact.t * User.t) :=
  flat_map
    (fun c =>
       map (pair c)
         (filter (fun u => option_eqb Z.eqb (Contact.user_id c) (Some (User.id u))) us))
    cs.

(** [.filter(p).all()] *)
Fixpoint where_all {R} (p : R -> outcome bool) (rows : list R) : outcome (list R) :=
  match rows with
  | [] => Return []
  | r :: rs =>
      match p r with
      | Raise x => Raise x
      | Return b =>
          match where_all p rs with
          | Raise x => Raise x
          | Return l => Return (if b then r :: l else l)
          end
      end
  end.

(** [.filter(p).first()]: the scan stops at the first row kept. *)
Fixpoint where_first {R} (p : R -> outcome bool) (rows : list R) : outcome (option R) :=
  match rows with
  | [] => Return None
  | r :: rs =>
      match p r with
      | Raise x => Raise x
      | Return true => Return (Some r)
      | Return false => where_first p rs
      end
  end.

Definition query_all (p : Contact.t -> User.t -> outcome bool) : M (list Contact.t) :=
  fun _ s =>
    (match where_all (fun r => p (fst r) (snd r)) (join (contacts (db s)) (users (db s))) with
     | Return l => Return (map fst l)
     | Raise x => Raise x
     end, s).

Definition query_first (p : Contact.t -> User.t -> outcome bool) : M (option Contact.t) :=
  fun _ s =>
    (match where_first (fun r => p (fst r) (snd r)) (join (contacts (db s)) (users (db s))) with
     | Return o => Return (option_map fst o)
     | Raise x => Raise x
     end, s).

(* ================================================================== *)
(** ** [src/database/models.py]: the derived attribute *)

(** [Contact.days_to_next_birthday]. The clock is read three times, as in
    the source; within one request every reading is [today]. What the
    function gives when the clock moves between the readings is stated
    with [days_to_next_birthday_at] below. *)
Definition days_to_next_birthday (self : Contact.t) : M Z :=
  t1 <- datetime_today ;;
  next_birthday <- lift (replace_year (Contact.birthday self) (year t1)) ;;
  t2 <- datetime_today ;;
  next_birthday <-
    (if lt next_birthday t2
     then lift (datetime_new (year next_birthday + 1) (month next_birthday)
                  (day next_birthday) 0 0 0 0)
     else ret next_birthday) ;;
  t3 <- datetime_today ;;
  ret (sub_days next_birthday t3).

(** [ContactResponse] in [orm_mode]: the columns are copied and the
    derived attribute is evaluated while the response is built. The
    columns [notes], [created_at] and [updated_at] are set in every row
    that [create] writes; a row in which one of them is NULL is outside
    what this definition describes. *)
Definition from_orm (c : Contact.t) : M ContactResponse.t :=
  days <- days_to_next_birthday c ;;
  ret (ContactResponse.mk (Contact.id c) (Contact.firstname c) (Contact.lastname c)
         (Contact.birthday c) (Contact.phone c) (Contact.email c) (Contact.notes c)
         days (Contact.created_at c) (Contact.updated_at c)).

(** A route declared with [response_model=ContactResponse]. *)
Definition response_model (m : M Contact.t) : M ContactResponse.t :=
  c <- m ;; from_orm c.

(* ================================================================== *)
(** ** [src/repository/contacts.py] *)

Module repository_contacts.

Import Sql.

Definition same_user (u user : User.t) : outcome bool :=
  Return (User.id u =? User.id user).

Definition get_contacts (user : User.t) : M (list Contact.t) :=
  query_all (fun _ u => same_user u user).

Definition get_contact_by_id (user : User.t) (contact_id : Z) : M (option Contact.t) :=
  query_first (fun c u =>
    and_ (Return (Contact.id c =? contact_id)) (same_user u user)).

Definition get_next_week_birthday_contacts (user : User.t) : M (list Contact.t) :=
  today <- datetime_today ;;
  next_week <- lift (add_days today 7) ;;
  query_all (fun c u =>
    and_ (Return (String.leb (to_char_MM_DD today) (to_char_MM_DD (Contact.birthday c))))
      (and_ (Return (String.leb (to_char_MM_DD (Contact.birthday c))
                       (to_char_MM_DD next_week)))
         (same_user u user))).

Definition get_contact_by_email (user : User.t) (email : string) : M (option Contact.t) :=
  query_first (fun c u => and_ (ilike (Contact.email c) email) (same_user u user)).

Definition get_contact_by_firstname (user : User.t) (firstname : string)
  : M (list Contact.t) :=
  query_all (fun c u => and_ (ilike (Contact.firstname c) firstname) (same_user u user)).

Definition get_contact_by_lastname (user : User.t) (lastname : string)
  : M (list Contact.t) :=
  query_all (fun c u => and_ (ilike (Contact.lastname c) lastname) (same_user u user)).

Definition create (user : User.t) (body : ContactModel.t) : M Contact.t :=
  let contact := mk_Transient body (Some (User.id user)) in
  h <- db_add contact ;;
  db_commit ;;
  db_refresh h.

(** The object returned is the one that was loaded; its attributes are
    expired by the commit and read again from the row when the caller
    looks at them, hence the [db_get]. *)
Definition update (user : User.t) (contact_id : Z) (body : ContactModel.t)
  : M (option Contact.t) :=
  contact <- get_contact_by_id user contact_id ;;
  match contact with
  | Some c =>
      setattr c (A_firstname (ContactModel.firstname body)) ;;
      setattr c (A_lastname (ContactModel.lastname body)) ;;
      setattr c (A_phone (ContactModel.phone body)) ;;
      setattr c (A_email (ContactModel.email body)) ;;
      setattr c (A_birthday (ContactModel.birthday body)) ;;
      setattr c (A_notes (Some (ContactModel.notes body))) ;;
      db_commit ;;
      c' <- db_get (Contact.id c) ;;
      ret (Some c')
  | None => ret None
  end.

Definition remove (user : User.t) (contact_id : Z) : M (option Contact.t) :=
  contact <- get_contact_by_id user contact_id ;;
  match contact with
  | Some c =>
      db_delete c ;;
      db_commit ;;
      ret (Some c)
  | None => ret None
  end.

End repository_contacts.

(* ================================================================== *)
(** ** [src/routes/contacts.py] *)

Module routes.

(** [Path(ge=1)] *)
Definition Path_ge (bound v : Z) : M unit :=
  if bound <=? v then ret tt else raise RequestValidationError.

Definition NotFound : exn := HTTPException HTTP_404_NOT_FOUND "Not Found".
Definition Conflict : exn := HTTPException HTTP_409_CONFLICT "Email is exists!".

Definition get_contacts (current_user : User.t) : M (list Contact.t) :=
  repository_contacts.get_contacts current_user.

Definition get_contact (contact_id : Z) (current_user : User.t) : M Contact.t :=
  Path_ge 1 contact_id ;;
  contact <- repository_contacts.get_contact_by_id current_user contact_id ;;
  match contact with
  | None => raise NotFound
  | Some c => ret c
  end.

Definition get_contact_by_lastname (lastname : string) (current_user : User.t)
  : M (list Contact.t) :=
  repository_contacts.get_contact_by_lastname current_user lastname.

Definition get_contact_by_firstname (firstname : string) (current_user : User.t)
  : M (list Contact.t) :=
  repository_contacts.get_contact_by_firstname current_user firstname.

(** The route [/next_week_birthday/]; the source names its function
    [get_contacts] a second time. *)
Definition get_contacts' (current_user : User.t) : M (list Contact.t) :=
  repository_contacts.get_next_week_birthday_contacts current_user.

Definition create_contact (body : ContactModel.t) (current_user : User.t) : M Contact.t :=
  contact <- repository_contacts.get_contact_by_email current_user
               (ContactModel.email body) ;;
  match contact with
  | Some _ => raise Conflict
  | None => repository_contacts.create current_user body
  end.

Definition update_contact (body : ContactModel.t) (contact_id : Z) (current_user : User.t)
  : M Contact.t :=
  Path_ge 1 contact_id ;;
  contact <- repository_contacts.update current_user contact_id body ;;
  match contact with
  | None => raise NotFound
  | Some c => ret c
  end.

Definition remove_contact (contact_id : Z) (current_user : User.t) : M Contact.t :=
  Path_ge 1 contact_id ;;
  contact <- repository_contacts.remove current_user contact_id ;;
  match contact with
  | None => raise NotFound
  | Some c => ret c
  end.

End routes.

(* ================================================================== *)
(** ** Vocabulary of the statements *)

(** The constraints the schema puts on the store: [contacts.id] is a
    primary key, and its values were drawn from the sequence, which
    starts at 1. *)
Record store_ok (d : DB) : Prop := mk_store_ok {
  pk_contacts : NoDup (map Contact.id (contacts d));
  pk_sequence : forall c, In c (contacts d) -> 1 <= Contact.id c < contacts_id_seq d;
  pk_start : 1 <= contacts_id_seq d
}.

(** The user has a row in [users]. *)
Definition registered (d : DB) (user : User.t) : Prop :=
  exists u, In u (users d) /\ User.id u = User.id user.

(** The contact is a row of the store that belongs to the user. *)
Definition owns (d : DB) (user : User.t) (c : Contact.t) : Prop :=
  In c (contacts d) /\ Contact.user_id c = Some (User.id user).

(** The row carries the fields of the body. *)
Definition has_fields (c : Contact.t) (b : ContactModel.t) : Prop :=
  Contact.firstname c = ContactModel.firstname b /\
  Contact.lastname c = ContactModel.lastname b /\
  Contact.email c = ContactModel.email b /\
  Contact.phone c = ContactModel.phone b /\
  Contact.birthday c = ContactModel.birthday b /\
  Contact.notes c = Some (ContactModel.notes b).

(** Order of two timestamps of a column that may be NULL. *)
Definition ts_le (a b : option datetime) : Prop :=
  match a, b with
  | Some x, Some y => le x y = true
  | None, _ => True
  | Some _, None => False
  end.

(** The pair of month and day, in calendar order. *)
Definition md_le (a b : datetime) : bool :=
  (month a <? month b) || ((month a =? month b) && (day a <=? day b)).

(** The pure reading of the row filter of [get_contact_by_id]. *)
Definition by_id_of (user : User.t) (i : Z) (r : Contact.t * User.t) : bool :=
  (Contact.id (fst r) =? i) && (User.id (snd r) =? User.id user).

Definition lookup_owned (d : DB) (user : User.t) (i : Z) : option Contact.t :=
  option_map fst (find (by_id_of user i) (join (contacts d) (users d))).

(** The pure reading of the row filter of [get_contact_by_email], for a
    pattern on which the match cannot raise. *)
Definition like_b (p t : string) : bool :=
  match Sql.like p t with Some b => b | None => false end.

Definition by_email_of (user : User.t) (email : string) (r : Contact.t * User.t) : bool :=
  like_b (Sql.lower email) (Sql.lower (Contact.email (fst r))) &&
  (User.id (snd r) =? User.id user).

(** The six assignments of [update], as one function on rows. *)
Definition assign_all (t : datetime) (pk : Z) (b : ContactModel.t) (c : Contact.t)
  : Contact.t :=
  update_row t pk (A_notes (Some (ContactModel.notes b)))
    (update_row t pk (A_birthday (ContactModel.birthday b))
       (update_row t pk (A_email (ContactModel.email b))
          (update_row t pk (A_phone (ContactModel.phone b))
             (update_row t pk (A_lastname (ContactModel.lastname b))
                (update_row t pk (A_firstname (ContactModel.firstname b)) c))))).

(** The day of the year of a date, counted from 1. *)
Definition day_of_year (y m d : Z) : Z := days_before_month y m + d.

(** What [days_to_next_birthday] computes from a birthday and one reading
    of the clock. *)
Definition next_birthday_days (b t : datetime) : outcome Z :=
  match replace_year b (year t) with
  | Raise x => Raise x
  | Return nb =>
      if lt nb t
      then match datetime_new (year nb + 1) (month nb) (day nb) 0 0 0 0 with
           | Raise x => Raise x
           | Return nb' => Return (sub_days nb' t)
           end
      else Return (sub_days nb t)
  end.

(** The pure reading of the row filter of [get_next_week_birthday_contacts]. *)
Definition in_window_of (user : User.t) (lo hi : datetime) (r : Contact.t * User.t) : bool :=
  md_le lo (Contact.birthday (fst r)) && (md_le (Contact.birthday (fst r)) hi &&
  (User.id (snd r) =? User.id user)).

(** Month and day are in the ranges of a calendar date. *)
Definition md_in_range (t : datetime) : Prop :=
  1 <= month t <= 12 /\ 1 <= day t <= 31.

(** Every pair of a month and a day of the month. *)
Definition md_table : list (Z * Z) :=
  list_prod (map Z.of_nat (seq 1 12)) (map Z.of_nat (seq 1 31)).

Definition md_date (md : Z * Z) : datetime := mk_datetime 1 (fst md) (snd md) 0 0 0 0.

(** Month and day of a date of the calendar. *)
Definition date_ok (t : datetime) : Prop :=
  1 <= month t <= 12 /\ 1 <= day t <= days_in_month (year t) (month t).

(** The stores the operations leave behind, and the row read back. *)
Definition updated_store (e : Env) (d : DB) (pk : Z) (b : ContactModel.t) : DB :=
  mk_DB (users d) (map (assign_all (now e) pk b) (contacts d))
    (contacts_id_seq d) (S (commit_count d)).

Definition reduced_store (d : DB) (pk : Z) : DB :=
  mk_DB (users d) (filter (fun c => negb (Contact.id c =? pk)) (contacts d))
    (contacts_id_seq d) (S (commit_count d)).

Definition new_row (e : Env) (d : DB) (user : User.t) (b : ContactModel.t) : Contact.t :=
  insert_row (now e) (contacts_id_seq d) (mk_Transient b (Some (User.id user))).

Definition extended_store (e : Env) (d : DB) (user : User.t) (b : ContactModel.t) : DB :=
  mk_DB (users d) (contacts d ++ [new_row e d user b])
    (contacts_id_seq d + 1) (S (commit_count d)).

Definition load (d : DB) (pk : Z) : outcome Contact.t :=
  match find (fun c => Contact.id c =? pk) (contacts d) with
  | Some c => Return c
  | None => Raise InvalidRequestError
  end.

(** Sample data for the closed statements. *)
Module Sample.

Definition at_midnight (y m d : Z) : datetime := mk_datetime y m d 0 0 0 0.

Definition alice : User.t := User.mk 1 "alice" "alice@example.com" "hash" None None true.
Definition bob : User.t := User.mk 2 "bobby" "bob@example.com" "hash" None None true.

Definition stamp : option datetime := Some (mk_datetime 2023 1 15 9 30 0 0).

Definition taras : Contact.t :=
  Contact.mk 1 "Taras" "Shevchenko" "taras@ukraine.ua" "+380501234567"
    (at_midnight 1814 3 9) (Some "") (Some 1) stamp stamp.

Definition lesya : Contact.t :=
  Contact.mk 2 "Lesya" "Ukrainka" "lesya@ukraine.ua" "+380501111111"
    (at_midnight 1871 2 25) (Some "") (Some 2) stamp stamp.

Definition store : DB := mk_DB [alice; bob] [taras; lesya] 3 0.

Definition body : ContactModel.t :=
  ContactModel.mk "Ivan" "Franko" (at_midnight 1856 8 27) "+380502222222"
    "ivan@ukraine.ua" "".

Definition clock : Env :=
  mk_Env (mk_datetime 2023 6 1 10 0 0 0) (mk_datetime 2023 6 1 10 0 0 0).

Definition year_end : Env :=
  mk_Env (mk_datetime 2023 12 28 10 0 0 0) (mk_datetime 2023 12 28 10 0 0 0).


(** The contact and the store that creating [body] as [alice] gives. *)
Definition created : Contact.t := new_row clock store alice body.
Definition store_after_create : DB := extended_store clock store alice body.

End Sample.

(* ================================================================== *)
(** ** Lists of responses, and [main.py] *)

(** The computations of a list, one after the other. *)
Fixpoint for_each {A B} (f : A -> M B) (l : list A) : M (list B) :=
  match l with
  | [] => ret []
  | a :: l' => b <- f a ;; bs <- for_each f l' ;; ret (b :: bs)
  end.

(** A route declared with [response_model=List[ContactResponse]]: every
    contact of the list is turned into a response. *)
Definition response_model_list (m : M (list Contact.t)) : M (list ContactResponse.t) :=
  l <- m ;; for_each from_orm l.

(** [try: ... except Exception as e: ...]; every exception of the model
    is an [Exception]. *)
Definition try_except {A} (body : M A) (handler : exn -> M A) : M A :=
  fun e s =>
    match body e s with
    | (Raise x, s') => handler x e s'
    | done => done
    end.

(** [healthchecker] of [main.py]. What [db.execute(text(...)).fetchone()]
    gives is left to the caller: a row, no row, or an exception of the
    driver. The handler also prints the exception, which leaves no trace
    in the state modelled here. *)
Definition healthchecker (fetchone : M (option Z)) : M (list (string * string)) :=
  try_except
    (result <- fetchone ;;
     match result with
     | None => raise (HTTPException 500 "Database is not configured correctly")
     | Some _ => ret [("message", "Welcome to FastAPI!")]
     end)
    (fun _ => raise (HTTPException 500 "Error connecting to the database")).

(* ================================================================== *)
(** ** [migrations/versions/a71e2464d19c_init.py] *)

Module Migration.

Inductive sqltype : Type :=
| Integer
| String_ (length : option Z)
| DateTime
| Boolean.

Record Column : Type := mk_Column {
  col_name : string;
  col_type : sqltype;
  col_nullable : bool
}.

Inductive Constraint : Type :=
| PrimaryKeyConstraint (columns : list string)
| UniqueConstraint (columns : list string)
| ForeignKeyConstraint (columns : list string) (reftable : string)
    (refcolumns : list string) (ondelete : option string).

Record Table : Type := mk_Table {
  tbl_name : string;
  tbl_columns : list Column;
  tbl_constraints : list Constraint
}.

Record Index : Type := mk_Index {
  ix_name : string;
  ix_table : string;
  ix_columns : list string;
  ix_unique : bool
}.

(** The part of a database schema that the migration deals with. *)
Record Schema : Type := mk_Schema {
  tables : list Table;
  indexes : list Index
}.

(** A DDL statement gives the new schema or is refused by the database. *)
Inductive result : Type :=
| Done (s : Schema)
| ProgrammingError (what : string).

Definition andThen (r : result) (k : Schema -> result) : result :=
  match r with
  | Done s => k s
  | ProgrammingError w => ProgrammingError w
  end.

Definition has_table (s : Schema) (name : string) : bool :=
  existsb (fun t => String.eqb (tbl_name t) name) (tables s).

Definition has_index (s : Schema) (name : string) : bool :=
  existsb (fun i => String.eqb (ix_name i) name) (indexes s).

(** The tables a table refers to by a foreign key. *)
Definition references (t : Table) : list string :=
  flat_map (fun c => match c with
                     | ForeignKeyConstraint _ reftable _ _ => [reftable]
                     | _ => []
                     end) (tbl_constraints t).

(** CREATE TABLE: the name must be new, and the tables it refers to must
    exist. *)
Definition create_table (t : Table) (s : Schema) : result :=
  if has_table s (tbl_name t) then ProgrammingError "relation already exists"
  else if forallb (fun r => has_table s r || String.eqb r (tbl_name t)) (references t)
  then Done (mk_Schema (tables s ++ [t]) (indexes s))
  else ProgrammingError "relation does not exist".

(** CREATE INDEX: the name must be new, the table must exist and have the
    columns. *)
Definition create_index (name table : string) (columns : list string) (unique : bool)
  (s : Schema) : result :=
  if has_index s name then ProgrammingError "relation already exists"
  else
    match find (fun t => String.eqb (tbl_name t) table) (tables s) with
    | None => ProgrammingError "relation does not exist"
    | Some t =>
        if forallb (fun c => existsb (fun col => String.eqb (col_name col) c)
                               (tbl_columns t)) columns
        then Done (mk_Schema (tables s) (indexes s ++ [mk_Index name table columns unique]))
        else ProgrammingError "column does not exist"
    end.

(** DROP INDEX *)
Definition drop_index (name table_name : string) (s : Schema) : result :=
  if has_index s name
  then Done (mk_Schema (tables s)
               (filter (fun i => negb (String.eqb (ix_name i) name)) (indexes s)))
  else ProgrammingError "index does not exist".

(** DROP TABLE: refused while another table refers to it; the indexes of
    the table go with it. *)
Definition drop_table (name : string) (s : Schema) : result :=
  if negb (has_table s name) then ProgrammingError "table does not exist"
  else if existsb (fun t => negb (String.eqb (tbl_name t) name) &&
                            existsb (String.eqb name) (references t)) (tables s)
  then ProgrammingError "other objects depend on it"
  else Done (mk_Schema
               (filter (fun t => negb (String.eqb (tbl_name t) name)) (tables s))
               (filter (fun i => negb (String.eqb (ix_table i) name)) (indexes s))).

Definition users_table : Table :=
  mk_Table "users"
    [mk_Column "id" Integer false;
     mk_Column "username" (String_ (Some 50)) false;
     mk_Column "email" (String_ (Some 150)) false;
     mk_Column "password" (String_ (Some 255)) false;
     mk_Column "refresh_token" (String_ (Some 255)) true;
     mk_Column "avatar" (String_ (Some 255)) true;
     mk_Column "confirmed" Boolean true]
    [PrimaryKeyConstraint ["id"]; UniqueConstraint ["email"]].

Definition contacts_table : Table :=
  mk_Table "contacts"
    [mk_Column "id" Integer false;
     mk_Column "firstname" (String_ None) false;
     mk_Column "lastname" (String_ None) false;
     mk_Column "email" (String_ None) false;
     mk_Column "phone" (String_ None) false;
     mk_Column "birthday" DateTime false;
     mk_Column "notes" (String_ None) true;
     mk_Column "user_id" Integer true;
     mk_Column "created_at" DateTime true;
     mk_Column "updated_at" DateTime true]
    [ForeignKeyConstraint ["user_id"] "users" ["id"] (Some "CASCADE");
     PrimaryKeyConstraint ["id"]].

Definition upgrade (s : Schema) : result :=
  andThen (create_table users_table s) (fun s =>
  andThen (create_table contacts_table s) (fun s =>
  andThen (create_index "ix_contacts_email" "contacts" ["email"] false s) (fun s =>
  create_index "ix_contacts_id" "contacts" ["id"] false s))).

Definition downgrade (s : Schema) : result :=
  andThen (drop_index "ix_contacts_id" "contacts" s) (fun s =>
  andThen (drop_index "ix_contacts_email" "contacts" s) (fun s =>
  andThen (drop_table "contacts" s) (fun s =>
  drop_table "users" s))).

(** A schema the migration has not touched: no table and no index of its
    names, and no table that refers to [users] or [contacts]. *)
Definition untouched (s : Schema) : Prop :=
  has_table s "users" = false /\ has_table s "contacts" = false /\
  has_index s "ix_contacts_email" = false /\ has_index s "ix_contacts_id" = false /\
  (forall t, In t (tables s) ->
             existsb (String.eqb "users") (references t) = false /\
             existsb (String.eqb "contacts") (references t) = false) /\
  (forall i, In i (indexes s) ->
             String.eqb (ix_table i) "users" = false /\
             String.eqb (ix_table i) "contacts" = false).

End Migration.

(* ================================================================== *)
(** ** Vocabulary of the further statements *)

(** [users.id] is a primary key. *)
Definition users_ok (d : DB) : Prop := NoDup (map User.id (users d)).

(** The row refers to the user. *)
Definition owned_by (user : User.t) (c : Contact.t) : bool :=
  option_eqb Z.eqb (Contact.user_id c) (Some (User.id user)).

(** No character of the string is special in a LIKE pattern. *)
Fixpoint plain (s : string) : bool :=
  match s with
  | EmptyString => true
  | String c s' =>
      negb (Ascii.eqb c Sql.escape_char) && negb (Ascii.eqb c Sql.any_string) &&
      negb (Ascii.eqb c Sql.any_char) && plain s'
  end.

(** Every character of the string is an ASCII character. On such strings
    [Sql.lower] is the lower-casing of the database, which also folds the
    letters outside ASCII that the locale knows. *)
Fixpoint ascii_only (s : string) : bool :=
  match s with
  | EmptyString => true
  | String c s' => (nat_of_ascii c <? 128)%nat && ascii_only s'
  end.


(** [Contact.days_to_next_birthday] with the three readings of the clock
    told apart, for the clock moves between them: [t1] is the
    [datetime.today()] of the line that replaces the year, [t2] the one of
    the comparison and [t3] the one of the subtraction. *)
Definition days_to_next_birthday_at (self : Contact.t) (t1 t2 t3 : datetime) : outcome Z :=
  match replace_year (Contact.birthday self) (year t1) with
  | Raise x => Raise x
  | Return next_birthday =>
      match (if lt next_birthday t2
             then datetime_new (year next_birthday + 1) (month next_birthday)
                    (day next_birthday) 0 0 0 0
             else Return next_birthday) with
      | Raise x => Raise x
      | Return next_birthday => Return (sub_days next_birthday t3)
      end
  end.

(** More sample data, for the closed statements about the rest of the code. *)
Module Sample2.

(** A user without a row in [users]. *)
Definition stranger : User.t :=
  User.mk 7 "nobody" "nobody@example.com" "hash" None None false.

(** Contacts of [alice]: one born on 29 February, one whose birthday is
    the day of [Sample.clock], one whose birthday is seven days later. *)
Definition leap : Contact.t :=
  Contact.mk 3 "Leap" "Day" "leap@example.com" "+380503333333"
    (Sample.at_midnight 2000 2 29) (Some "") (Some 1) Sample.stamp Sample.stamp.

Definition june : Contact.t :=
  Contact.mk 4 "June" "First" "june@example.com" "+380504444444"
    (Sample.at_midnight 1990 6 1) (Some "") (Some 1) Sample.stamp Sample.stamp.

Definition week : Contact.t :=
  Contact.mk 5 "Week" "Later" "week@example.com" "+380505555555"
    (Sample.at_midnight 1985 6 8) (Some "") (Some 1) Sample.stamp Sample.stamp.

Definition store : DB :=
  mk_DB [Sample.alice; Sample.bob] [Sample.taras; Sample.lesya; leap; june; week] 6 0.


Definition empty_schema : Migration.Schema := Migration.mk_Schema [] [].

(** A body that carries the values [Sample.taras] has already. *)
Definition body_taras : ContactModel.t :=
  ContactModel.mk "Taras" "Shevchenko" (Sample.at_midnight 1814 3 9) "+380501234567"
    "taras@ukraine.ua" "".

(** Two readings of the clock around the midnight that starts 1 June
    2023, the birthday of [june]. *)
Definition before_midnight : datetime := mk_datetime 2023 5 31 23 59 59 999999.
Definition after_midnight : datetime := mk_datetime 2023 6 1 0 0 0 1.

(** A database whose clock reads a time before [Sample.stamp]. *)
Definition clock_set_back : Env :=
  mk_Env (mk_datetime 2023 1 1 0 0 0 0) (mk_datetime 2023 1 1 0 0 0 0).

End Sample2.

(* ================================================================== *)
(** ** Queries over the join *)

Section QueryFacts.

Context {R : Type}.

Lemma where_first_pure (q : R -> bool) (p : R -> outcome bool) (rows : list R) :
  (forall r, In r rows -> p r = Return (q r)) ->
  where_first p rows = Return (find q rows).
Proof.
  induction rows as [|r rs IH]; intros Hp; simpl; [reflexivity|].
  rewrite (Hp r (or_introl eq_refl)).
  destruct (q r); [reflexivity|].
  apply IH. intros r' Hr'. apply Hp. now right.
Qed.

Lemma where_all_pure (q : R -> bool) (p : R -> outcome bool) (rows : list R) :
  (forall r, In r rows -> p r = Return (q r)) ->
  where_all p rows = Return (filter q rows).
Proof.
  induction rows as [|r rs IH]; intros Hp; simpl; [reflexivity|].
  rewrite (Hp r (or_introl eq_refl)), IH.
  - reflexivity.
  - intros r' Hr'. apply Hp. now right.
Qed.

Lemma filter_nothing (q : R -> bool) (rows : list R) :
  (forall r, In r rows -> q r = false) -> filter q rows = [].
Proof.
  induction rows as [|r rs IH]; intros Hq; simpl; [reflexivity|].
  rewrite (Hq r (or_introl eq_refl)). apply IH. intros r' Hr'. apply Hq. now right.
Qed.

End QueryFacts.

Lemma and_pure (a b : bool) : Sql.and_ (Return a) (Return b) = Return (a && b).
Proof. destruct a; reflexivity. Qed.

Lemma option_eqb_Z_eq (a b : option Z) : option_eqb Z.eqb a b = true <-> a = b.
Proof.
  destruct a as [x|], b as [y|]; simpl; split; intros H;
    try discriminate; try reflexivity.
  - apply Z.eqb_eq in H. now subst.
  - injection H as ->. apply Z.eqb_refl.
Qed.

(** A pair is in the join exactly when the contact refers to the user. *)
Lemma in_join (cs : list Contact.t) (us : list User.t) (c : Contact.t) (u : User.t) :
  In (c, u) (join cs us) <->
  In c cs /\ In u us /\ Contact.user_id c = Some (User.id u).
Proof.
  unfold join. rewrite in_flat_map. split.
  - intros (c' & Hc' & Hin). apply in_map_iff in Hin.
    destruct Hin as (u' & Heq & Hu'). injection Heq as -> ->.
    apply filter_In in Hu'. destruct Hu' as [Hu' Hfk].
    apply option_eqb_Z_eq in Hfk. auto.
  - intros (Hc & Hu & Hfk). exists c. split; [assumption|].
    apply in_map. apply filter_In. split; [assumption|].
    now apply option_eqb_Z_eq.
Qed.

(** Rows with the same primary key are the same row. *)
Lemma pk_unique (cs : list Contact.t) (a b : Contact.t) :
  NoDup (map Contact.id cs) -> In a cs -> In b cs ->
  Contact.id a = Contact.id b -> a = b.
Proof.
  induction cs as [|x xs IH]; simpl; intros Hnd Ha Hb Hid; [contradiction|].
  inversion Hnd as [|? ? Hnotin Hnd']; subst.
  destruct Ha as [->|Ha], Hb as [->|Hb]; try reflexivity.
  - exfalso. apply Hnotin. rewrite Hid. now apply in_map.
  - exfalso. apply Hnotin. rewrite <- Hid. now apply in_map.
  - now apply IH.
Qed.

(** What [get_contact_by_id] computes, and that it leaves the state alone. *)
Lemma get_contact_by_id_run (user : User.t) (i : Z) (e : Env) (d : DB) (ss : Session) :
  repository_contacts.get_contact_by_id user i e (mk_St d ss)
  = (Return (lookup_owned d user i), mk_St d ss).
Proof.
  unfold repository_contacts.get_contact_by_id, query_first, lookup_owned.
  rewrite (where_first_pure (by_id_of user i)); [reflexivity|].
  intros r _. unfold repository_contacts.same_user, by_id_of. apply and_pure.
Qed.

(** A contact that is found has the id asked for and belongs to the user. *)
Lemma lookup_owned_sound (d : DB) (user : User.t) (i : Z) (c : Contact.t) :
  lookup_owned d user i = Some c ->
  owns d user c /\ Contact.id c = i /\ registered d user.
Proof.
  unfold lookup_owned. intros H.
  destruct (find _ _) as [[c' u]|] eqn:Hf; simpl in H; [|discriminate].
  injection H as ->.
  apply find_some in Hf. destruct Hf as [Hin Hq].
  apply in_join in Hin. destruct Hin as (Hc & Hu & Hfk).
  unfold by_id_of in Hq. simpl in Hq.
  apply andb_true_iff in Hq. destruct Hq as [Hi Hu'].
  apply Z.eqb_eq in Hi, Hu'.
  repeat split; try assumption.
  - now rewrite Hfk, Hu'.
  - now exists u.
Qed.

(** Nothing is found when no row with that id belongs to the user. *)
Lemma lookup_owned_none (d : DB) (user : User.t) (i : Z) :
  (forall c, In c (contacts d) -> Contact.id c = i ->
             Contact.user_id c <> Some (User.id user)) ->
  lookup_owned d user i = None.
Proof.
  intros Hno. destruct (lookup_owned d user i) as [c|] eqn:H; [|reflexivity].
  apply lookup_owned_sound in H. destruct H as ((Hin & Hown) & Hid & _).
  exfalso. exact (Hno c Hin Hid Hown).
Qed.

(** A contact of a registered user is found by its id. *)
Lemma lookup_owned_complete (d : DB) (user : User.t) (c : Contact.t) :
  NoDup (map Contact.id (contacts d)) -> registered d user -> owns d user c ->
  lookup_owned d user (Contact.id c) = Some c.
Proof.
  intros Hnd (u & Hu & Hid) (Hin & Hown).
  destruct (lookup_owned d user (Contact.id c)) as [c'|] eqn:H.
  - apply lookup_owned_sound in H. destruct H as ((Hin' & _) & Hid' & _).
    f_equal. now apply (pk_unique (contacts d)).
  - exfalso. unfold lookup_owned in H.
    destruct (find _ _) as [r|] eqn:Hf; [discriminate|].
    assert (Hq : by_id_of user (Contact.id c) (c, u) = false).
    { apply (find_none _ _ Hf). apply in_join.
      repeat split; try assumption. now rewrite Hid. }
    unfold by_id_of in Hq. simpl in Hq.
    rewrite Z.eqb_refl, Hid, Z.eqb_refl in Hq. discriminate.
Qed.

(* ================================================================== *)
(** ** What the repository operations do to a fresh session *)

Lemma update_exec (user : User.t) (i : Z) (b : ContactModel.t) (e : Env) (d : DB) :
  repository_contacts.update user i b e (mk_St d fresh_session) =
  match lookup_owned d user i with
  | None => (Return None, mk_St d fresh_session)
  | Some c =>
      let d' := updated_store e d (Contact.id c) b in
      (match load d' (Contact.id c) with
       | Return c' => Return (Some c')
       | Raise x => Raise x
       end, mk_St d' fresh_session)
  end.
Proof.
  unfold repository_contacts.update, bind.
  rewrite get_contact_by_id_run.
  destruct (lookup_owned d user i) as [c|]; [|reflexivity].
  cbn -[update_row]. rewrite !map_map.
  unfold db_get, load, updated_store, assign_all. cbn -[update_row].
  destruct (find _ _); reflexivity.
Qed.

Lemma remove_exec (user : User.t) (i : Z) (e : Env) (d : DB) :
  repository_contacts.remove user i e (mk_St d fresh_session) =
  match lookup_owned d user i with
  | None => (Return None, mk_St d fresh_session)
  | Some c => (Return (Some c), mk_St (reduced_store d (Contact.id c)) fresh_session)
  end.
Proof.
  unfold repository_contacts.remove, bind.
  rewrite get_contact_by_id_run.
  destruct (lookup_owned d user i) as [c|]; reflexivity.
Qed.

Lemma create_exec (user : User.t) (b : ContactModel.t) (e : Env) (d : DB) :
  repository_contacts.create user b e (mk_St d fresh_session) =
  if fk_user_ok (users d) (Some (User.id user))
  then (load (extended_store e d user b) (contacts_id_seq d),
        mk_St (extended_store e d user b) (mk_Session [] [contacts_id_seq d]))
  else (Raise IntegrityError,
        mk_St (mk_DB (users d) (contacts d) (contacts_id_seq d + 1) (commit_count d))
          fresh_session).
Proof.
  unfold repository_contacts.create, bind, db_add, db_commit.
  cbn -[insert_row fk_user_ok].
  destruct (fk_user_ok (users d) (Some (User.id user))); [|reflexivity].
  cbn -[insert_row]. unfold db_get, load, extended_store, new_row. cbn -[insert_row].
  destruct (find _ _); reflexivity.
Qed.

Lemma registered_fk (d : DB) (user : User.t) :
  registered d user <-> fk_user_ok (users d) (Some (User.id user)) = true.
Proof.
  unfold registered. simpl. rewrite existsb_exists. split.
  - intros (u & Hu & Hid). exists u. split; [assumption|]. now apply Z.eqb_eq.
  - intros (u & Hu & Hid). exists u. split; [assumption|]. now apply Z.eqb_eq.
Qed.

(* ================================================================== *)
(** ** Isolation between users *)

Lemma update_row_other (t : datetime) (pk : Z) (a : attr) (c : Contact.t) :
  Contact.id c <> pk -> update_row t pk a c = c.
Proof.
  intros Hne. apply Z.eqb_neq in Hne.
  unfold update_row. now rewrite Hne.
Qed.

Lemma assign_all_other (t : datetime) (pk : Z) (b : ContactModel.t) (c : Contact.t) :
  Contact.id c <> pk -> assign_all t pk b c = c.
Proof.
  intros Hne. unfold assign_all.
  now rewrite !(fun a => @update_row_other t pk a c Hne).
Qed.

Lemma path_ge_ok {A} (i : Z) (m : M A) (e : Env) (s : St) :
  1 <= i -> bind (routes.Path_ge 1 i) (fun _ => m) e s = m e s.
Proof.
  intros Hi. unfold bind, routes.Path_ge.
  apply Z.leb_le in Hi. now rewrite Hi.
Qed.

Lemma path_ge_state {A} (i : Z) (m : M A) (e : Env) (s : St) :
  1 <= i \/ bind (routes.Path_ge 1 i) (fun _ => m) e s = (Raise RequestValidationError, s).
Proof.
  destruct (Z.leb_spec 1 i) as [H|H]; [now left|right].
  unfold bind, routes.Path_ge. apply Z.leb_gt in H. now rewrite H.
Qed.

(** C1. A contact owned by user U1 is out of reach of every other user U2:
    looking it up by id as U2 finds nothing, the routes get, update and
    remove answer 404 Not Found and leave the store as it was, no update or
    remove that U2 issues for any id touches the contact, and whatever
    U2 does get by id belongs to U2. *)
Theorem other_user_contact_not_found
  (d : DB) (e : Env) (U1 U2 : User.t) (c : Contact.t) (b : ContactModel.t) :
  store_ok d -> owns d U1 c -> User.id U1 <> User.id U2 ->
  run_request (repository_contacts.get_contact_by_id U2 (Contact.id c)) e d
    = (Return None, d) /\
  run_request (routes.get_contact (Contact.id c) U2) e d = (Raise routes.NotFound, d) /\
  run_request (routes.update_contact b (Contact.id c) U2) e d = (Raise routes.NotFound, d) /\
  run_request (routes.remove_contact (Contact.id c) U2) e d = (Raise routes.NotFound, d) /\
  (forall i,
     In c (contacts (snd (run_request (repository_contacts.update U2 i b) e d))) /\
     In c (contacts (snd (run_request (repository_contacts.remove U2 i) e d)))) /\
  (forall i c',
     fst (run_request (repository_contacts.get_contact_by_id U2 i) e d) = Return (Some c') ->
     Contact.user_id c' = Some (User.id U2)).
Proof.
  intros [Hpk Hseq Hstart] [Hin Hown] Hne.
  assert (Hnone : lookup_owned d U2 (Contact.id c) = None).
  { apply lookup_owned_none. intros c' Hin' Hid Hown'.
    assert (c' = c) by now apply (pk_unique (contacts d)).
    subst c'. rewrite Hown in Hown'. injection Hown' as Heq. now apply Hne. }
  assert (Hge : 1 <= Contact.id c) by (apply Hseq; assumption).
  assert (Hother : forall i c0, lookup_owned d U2 i = Some c0 ->
                                Contact.id c <> Contact.id c0).
  { intros i c0 Hl Hid. apply lookup_owned_sound in Hl.
    destruct Hl as ((Hin0 & Hown0) & _ & _).
    assert (c = c0) by now apply (pk_unique (contacts d)).
    subst c0. rewrite Hown in Hown0. injection Hown0 as Heq. now apply Hne. }
  repeat apply conj.
  - unfold run_request. now rewrite get_contact_by_id_run, Hnone.
  - unfold run_request, routes.get_contact. rewrite path_ge_ok by assumption.
    unfold bind. now rewrite get_contact_by_id_run, Hnone.
  - unfold run_request, routes.update_contact. rewrite path_ge_ok by assumption.
    unfold bind. now rewrite update_exec, Hnone.
  - unfold run_request, routes.remove_contact. rewrite path_ge_ok by assumption.
    unfold bind. now rewrite remove_exec, Hnone.
  - intros i. split.
    + unfold run_request. rewrite update_exec.
      destruct (lookup_owned d U2 i) as [c0|] eqn:Hl; simpl; [|assumption].
      apply in_map_iff. exists c. split; [|assumption].
      apply assign_all_other. now apply (Hother i).
    + unfold run_request. rewrite remove_exec.
      destruct (lookup_owned d U2 i) as [c0|] eqn:Hl; simpl; [|assumption].
      apply filter_In. split; [assumption|].
      apply negb_true_iff, Z.eqb_neq. now apply (Hother i).
  - intros i c' Hr. unfold run_request in Hr. rewrite get_contact_by_id_run in Hr.
    simpl in Hr. injection Hr as Hr. apply lookup_owned_sound in Hr.
    now destruct Hr as ((_ & Hown') & _).
Qed.

(** C6. When no contact with id [i] belongs to the user (there is none, or
    it is someone else's: the two cases give the same answer), [update]
    returns nothing, the route answers 404 Not Found, and the store is
    exactly what it was: no row changed and nothing was committed. *)
Theorem update_missing_leaves_store
  (d : DB) (e : Env) (U : User.t) (i : Z) (b : ContactModel.t) :
  (forall c, In c (contacts d) -> Contact.id c = i ->
             Contact.user_id c <> Some (User.id U)) ->
  run_request (repository_contacts.update U i b) e d = (Return None, d) /\
  (1 <= i -> run_request (routes.update_contact b i U) e d = (Raise routes.NotFound, d)) /\
  snd (run_request (routes.update_contact b i U) e d) = d /\
  commit_count (snd (run_request (routes.update_contact b i U) e d)) = commit_count d.
Proof.
  intros Hno. apply lookup_owned_none in Hno.
  assert (Hroute : 1 <= i ->
            run_request (routes.update_contact b i U) e d = (Raise routes.NotFound, d)).
  { intros Hi. unfold run_request, routes.update_contact.
    rewrite path_ge_ok by assumption. unfold bind. now rewrite update_exec, Hno. }
  assert (Hsame : snd (run_request (routes.update_contact b i U) e d) = d).
  { unfold run_request, routes.update_contact.
    match goal with
    | |- context [bind (routes.Path_ge 1 i) (fun _ => ?m)] =>
        destruct (path_ge_state i m e (mk_St d fresh_session)) as [Hi|Hbad]
    end.
    - fold (routes.update_contact b i U). fold (run_request (routes.update_contact b i U) e d).
      now rewrite Hroute.
    - now rewrite Hbad. }
  repeat apply conj.
  - unfold run_request. now rewrite update_exec, Hno.
  - exact Hroute.
  - exact Hsame.
  - now rewrite Hsame.
Qed.

(** C5. Once the owner has removed a contact, the row is gone from the
    table, and a later get of the same id finds nothing and answers
    404 Not Found, whoever asks and whenever. *)
Theorem remove_then_get_not_found (d : DB) (e : Env) (U : User.t) (c : Contact.t) :
  store_ok d -> registered d U -> owns d U c ->
  exists d',
    run_request (routes.remove_contact (Contact.id c) U) e d = (Return c, d') /\
    (forall x, In x (contacts d') -> Contact.id x <> Contact.id c) /\
    (forall V e',
       run_request (repository_contacts.get_contact_by_id V (Contact.id c)) e' d'
         = (Return None, d') /\
       run_request (routes.get_contact (Contact.id c) V) e' d'
         = (Raise routes.NotFound, d')).
Proof.
  intros [Hpk Hseq Hstart] Hreg Hown.
  assert (Hge : 1 <= Contact.id c) by (apply Hseq; apply Hown).
  exists (reduced_store d (Contact.id c)).
  assert (Hgone : forall x, In x (contacts (reduced_store d (Contact.id c))) ->
                            Contact.id x <> Contact.id c).
  { intros x Hx. simpl in Hx. apply filter_In in Hx.
    destruct Hx as [_ Hx]. now apply negb_true_iff, Z.eqb_neq in Hx. }
  assert (Hnone : forall V, lookup_owned (reduced_store d (Contact.id c)) V (Contact.id c)
                            = None).
  { intros V. apply lookup_owned_none. intros x Hx Hid. now apply Hgone in Hx. }
  repeat apply conj.
  - unfold run_request, routes.remove_contact. rewrite path_ge_ok by assumption.
    unfold bind. rewrite remove_exec.
    now rewrite (lookup_owned_complete Hpk Hreg Hown).
  - exact Hgone.
  - intros V e'. split.
    + unfold run_request. now rewrite get_contact_by_id_run, Hnone.
    + unfold run_request, routes.get_contact. rewrite path_ge_ok by assumption.
      unfold bind. now rewrite get_contact_by_id_run, Hnone.
Qed.

(* ================================================================== *)
(** ** Comparison of datetimes *)

Lemma lex_compare_refl (l : list Z) : lex_compare l l = Eq.
Proof. induction l as [|x l IH]; simpl; [reflexivity|]. now rewrite Z.compare_refl. Qed.

Lemma lex_compare_eq (a b : list Z) :
  List.length a = List.length b -> lex_compare a b = Eq -> a = b.
Proof.
  revert b. induction a as [|x a IH]; intros [|y b] Hlen H; simpl in *;
    try discriminate; [reflexivity|].
  destruct (x ?= y) eqn:Hxy; try discriminate.
  apply Z.compare_eq in Hxy. subst y. f_equal. apply IH; [lia|assumption].
Qed.

Lemma le_refl (t : datetime) : le t t = true.
Proof. unfold le, cmp. now rewrite lex_compare_refl. Qed.

Lemma datetime_eqb_eq (a b : datetime) : datetime_eqb a b = true -> a = b.
Proof.
  unfold datetime_eqb, cmp. intros H.
  destruct (lex_compare (fields a) (fields b)) eqn:Hc; try discriminate.
  apply lex_compare_eq in Hc; [|reflexivity].
  destruct a, b. unfold fields in Hc. simpl in Hc. now injection Hc as -> -> -> -> -> -> ->.
Qed.

(* ================================================================== *)
(** ** Update and create *)

Lemma update_row_id (t : datetime) (pk : Z) (a : attr) (c : Contact.t) :
  Contact.id (update_row t pk a c) = Contact.id c.
Proof.
  unfold update_row. destruct (_ && _); [|reflexivity]. now destruct c, a.
Qed.

Lemma assign_all_id (t : datetime) (pk : Z) (b : ContactModel.t) (c : Contact.t) :
  Contact.id (assign_all t pk b c) = Contact.id c.
Proof. unfold assign_all. now rewrite !update_row_id. Qed.

Lemma find_map_pk (F : Contact.t -> Contact.t) (cs : list Contact.t) (c : Contact.t) :
  NoDup (map Contact.id cs) -> In c cs ->
  (forall x, Contact.id (F x) = Contact.id x) ->
  find (fun x => Contact.id x =? Contact.id c) (map F cs) = Some (F c).
Proof.
  intros Hnd Hin HF. induction cs as [|x xs IH]; simpl in *; [contradiction|].
  inversion Hnd as [|? ? Hnotin Hnd']; subst.
  rewrite HF. destruct Hin as [->|Hin].
  - now rewrite Z.eqb_refl.
  - destruct (Z.eqb_spec (Contact.id x) (Contact.id c)) as [Heq|Hne].
    + exfalso. apply Hnotin. rewrite Heq. now apply in_map.
    + now apply IH.
Qed.

Lemma find_fresh (cs : list Contact.t) (r : Contact.t) :
  (forall x, In x cs -> Contact.id x <> Contact.id r) ->
  find (fun x => Contact.id x =? Contact.id r) (cs ++ [r]) = Some r.
Proof.
  intros Hfresh. induction cs as [|x xs IH]; simpl.
  - now rewrite Z.eqb_refl.
  - destruct (Z.eqb_spec (Contact.id x) (Contact.id r)) as [Heq|Hne].
    + exfalso. apply (Hfresh x); [now left|assumption].
    + apply IH. intros y Hy. apply Hfresh. now right.
Qed.

Lemma update_row_self (t : datetime) (pk : Z) (a : attr) (c : Contact.t) :
  Contact.id c = pk ->
  update_row t pk a c = if attr_changes a c then touch t (set_attr a c) else c.
Proof. intros <-. unfold update_row. now rewrite Z.eqb_refl. Qed.

(** One assignment flushed to a row given by its columns, with the case
    analysis on whether it is a net change. *)
Ltac flush_step :=
  match goal with
  | |- context [update_row ?t ?pk ?a (Contact.mk ?i ?fn ?ln ?em ?ph ?bd ?nt ?uid ?ca ?ua)] =>
      rewrite (@update_row_self t pk a (Contact.mk i fn ln em ph bd nt uid ca ua) eq_refl);
      unfold attr_changes;
      cbn [set_attr touch Contact.firstname Contact.lastname Contact.phone
           Contact.email Contact.birthday Contact.notes option_eqb];
      match goal with
      | |- context [String.eqb ?x ?y] =>
          destruct (String.eqb_spec x y); [subst|]
      | |- context [datetime_eqb ?x ?y] =>
          let E := fresh "E" in
          destruct (datetime_eqb x y) eqn:E; [apply datetime_eqb_eq in E; subst|]
      | |- context [negb false] => idtac
      end;
      cbn [negb]
  end.

(** What the six assignments leave in the row they are flushed to. *)
Lemma assign_all_self (t : datetime) (b : ContactModel.t) (c : Contact.t) :
  let c' := assign_all t (Contact.id c) b c in
  has_fields c' b /\
  Contact.user_id c' = Contact.user_id c /\
  Contact.created_at c' = Contact.created_at c /\
  (Contact.updated_at c' = Contact.updated_at c \/ Contact.updated_at c' = Some t) /\
  (~ has_fields c b -> Contact.updated_at c' = Some t).
Proof.
  destruct c as [i fn ln em ph bd nt uid ca ua], b as [bfn bln bbd bph bem bnt].
  unfold assign_all, has_fields.
  cbn [Contact.id ContactModel.firstname ContactModel.lastname ContactModel.phone
       ContactModel.email ContactModel.birthday ContactModel.notes].
  destruct nt as [nt|]; do 6 flush_step;
    cbn [Contact.firstname Contact.lastname Contact.phone Contact.email Contact.birthday
         Contact.notes Contact.user_id Contact.created_at Contact.updated_at];
    (split; [repeat apply conj; reflexivity|]);
    (split; [reflexivity|]); (split; [reflexivity|]);
    (split; [auto|]); intros Hno; try reflexivity;
    exfalso; apply Hno; repeat apply conj; congruence.
Qed.

Lemma ts_le_updated (t : datetime) (a a' : option datetime) :
  ts_le a (Some t) -> a' = a \/ a' = Some t -> ts_le a a'.
Proof.
  intros Hle [->| ->]; [|assumption].
  destruct a as [x|]; simpl; [apply le_refl|exact I].
Qed.

Lemma datetime_eqb_refl (t : datetime) : datetime_eqb t t = true.
Proof. unfold datetime_eqb, cmp. now rewrite lex_compare_refl. Qed.

(** Assigning the values a row already has is no net change. *)
Lemma assign_all_no_change (t : datetime) (pk : Z) (b : ContactModel.t) (c : Contact.t) :
  has_fields c b -> assign_all t pk b c = c.
Proof.
  intros (Hfn & Hln & Hem & Hph & Hbd & Hnt).
  assert (Hrow : forall a, attr_changes a c = false -> update_row t pk a c = c).
  { intros a Ha. unfold update_row. now rewrite Ha, andb_false_r. }
  unfold assign_all.
  rewrite (Hrow (A_firstname _));
    [|unfold attr_changes; now rewrite Hfn, String.eqb_refl].
  rewrite (Hrow (A_lastname _));
    [|unfold attr_changes; now rewrite Hln, String.eqb_refl].
  rewrite (Hrow (A_phone _));
    [|unfold attr_changes; now rewrite Hph, String.eqb_refl].
  rewrite (Hrow (A_email _));
    [|unfold attr_changes; now rewrite Hem, String.eqb_refl].
  rewrite (Hrow (A_birthday _));
    [|unfold attr_changes; now rewrite Hbd, datetime_eqb_refl].
  rewrite (Hrow (A_notes _));
    [reflexivity|unfold attr_changes; rewrite Hnt; simpl; now rewrite String.eqb_refl].
Qed.

(** C7 (as amended). For a contact the user owns, [update] writes every
    mutable field of the body into the row (first name, last name, phone,
    e-mail, birthday, notes) and keeps its id, owner and creation time.
    The timestamp is set by the UPDATE statement: when the body changes at
    least one field, [updated_at] becomes the current time of the
    database; when it changes none, no UPDATE is emitted and the row,
    [updated_at] included, is what it was. So [updated_at] is not earlier
    than the one before whenever the clock of the database is not behind
    the stored value. *)
Theorem update_replaces_fields
  (d : DB) (e : Env) (U : User.t) (c : Contact.t) (b : ContactModel.t) :
  store_ok d -> registered d U -> owns d U c ->
  exists c' d',
    run_request (repository_contacts.update U (Contact.id c) b) e d = (Return (Some c'), d') /\
    run_request (routes.update_contact b (Contact.id c) U) e d = (Return c', d') /\
    In c' (contacts d') /\
    has_fields c' b /\
    Contact.id c' = Contact.id c /\
    Contact.user_id c' = Contact.user_id c /\
    Contact.created_at c' = Contact.created_at c /\
    (~ has_fields c b -> Contact.updated_at c' = Some (now e)) /\
    (has_fields c b -> c' = c) /\
    (ts_le (Contact.updated_at c) (Some (now e)) ->
     ts_le (Contact.updated_at c) (Contact.updated_at c')).
Proof.
  intros [Hpk Hseq Hstart] Hreg Hown.
  assert (Hge : 1 <= Contact.id c) by (apply Hseq; apply Hown).
  pose proof (lookup_owned_complete Hpk Hreg Hown) as Hl.
  pose proof (assign_all_self (now e) b c) as (Hf & Hu & Hc & Hua & Hchg).
  assert (Hload : load (updated_store e d (Contact.id c) b) (Contact.id c)
                  = Return (assign_all (now e) (Contact.id c) b c)).
  { unfold load, updated_store. simpl.
    rewrite (@find_map_pk (assign_all (now e) (Contact.id c) b) _ c Hpk (proj1 Hown)).
    - reflexivity.
    - intros x. apply assign_all_id. }
  exists (assign_all (now e) (Contact.id c) b c), (updated_store e d (Contact.id c) b).
  split; [|split; [|split; [|split; [exact Hf|split; [|split; [exact Hu|
    split; [exact Hc|split; [exact Hchg|split]]]]]]]].
  - unfold run_request. rewrite update_exec, Hl. simpl. now rewrite Hload.
  - unfold run_request, routes.update_contact. rewrite path_ge_ok by assumption.
    unfold bind. rewrite update_exec, Hl. simpl. now rewrite Hload.
  - simpl. apply in_map. apply Hown.
  - apply assign_all_id.
  - intros Hsame. now apply assign_all_no_change.
  - intros Hclock. now apply (ts_le_updated (t:=now e)).
Qed.

(** C7 (the claim as written fails). An update with the values the
    contact already has returns the row as it was: its [updated_at] is
    still that of January although the database reads 1 June, so the
    timestamp is not refreshed. And with a database clock that has been
    set back behind the stored value, an update that changes a field
    leaves an [updated_at] earlier than the one before. *)
Theorem update_does_not_always_refresh :
  (exists d',
     run_request (repository_contacts.update Sample.alice 1 Sample2.body_taras)
       Sample.clock Sample.store = (Return (Some Sample.taras), d') /\
     has_fields Sample.taras Sample2.body_taras /\
     Contact.updated_at Sample.taras = Some (mk_datetime 2023 1 15 9 30 0 0) /\
     now Sample.clock = mk_datetime 2023 6 1 10 0 0 0) /\
  (exists c' d',
     run_request (repository_contacts.update Sample.alice 1 Sample.body)
       Sample2.clock_set_back Sample.store = (Return (Some c'), d') /\
     Contact.updated_at c' = Some (mk_datetime 2023 1 1 0 0 0 0) /\
     ~ ts_le (Contact.updated_at Sample.taras) (Contact.updated_at c')).
Proof.
  split.
  - eexists. split; [vm_compute; reflexivity|].
    split; [|split; reflexivity].
    unfold has_fields. repeat apply conj; reflexivity.
  - eexists _, _. split; [vm_compute; reflexivity|].
    split; [reflexivity|]. vm_compute. discriminate.
Qed.

Lemma new_row_fields (e : Env) (d : DB) (U : User.t) (b : ContactModel.t) :
  has_fields (new_row e d U b) b.
Proof. unfold has_fields, new_row, insert_row. simpl. repeat apply conj; reflexivity. Qed.

(** The constraints of the schema survive the three writes. *)
Lemma store_ok_create (e : Env) (d : DB) (U : User.t) (b : ContactModel.t) :
  store_ok d -> store_ok (extended_store e d U b).
Proof.
  intros [Hpk Hseq Hstart]. split; simpl.
  - rewrite map_app. simpl. apply NoDup_app. repeat apply conj.
    + assumption.
    + repeat constructor. intros [].
    + intros i Hi [Heq|[]]. apply in_map_iff in Hi.
      destruct Hi as (x & Hx & Hin). apply Hseq in Hin. lia.
  - intros x Hx. apply in_app_or in Hx. destruct Hx as [Hx|[<-|[]]].
    + apply Hseq in Hx. lia.
    + simpl. lia.
  - lia.
Qed.

Lemma store_ok_update (e : Env) (d : DB) (pk : Z) (b : ContactModel.t) :
  store_ok d -> store_ok (updated_store e d pk b).
Proof.
  intros [Hpk Hseq Hstart]. split; simpl.
  - rewrite map_map. erewrite map_ext; [exact Hpk|]. intros x. apply assign_all_id.
  - intros x Hx. apply in_map_iff in Hx. destruct Hx as (y & <- & Hy).
    rewrite assign_all_id. now apply Hseq.
  - assumption.
Qed.

Lemma NoDup_map_filter {A B} (f : A -> B) (q : A -> bool) (l : list A) :
  NoDup (map f l) -> NoDup (map f (filter q l)).
Proof.
  induction l as [|x l IH]; simpl; intros Hnd; [constructor|].
  inversion Hnd as [|? ? Hnotin Hnd']; subst.
  destruct (q x); simpl; [|now apply IH].
  constructor; [|now apply IH].
  intros Hin. apply Hnotin. apply in_map_iff in Hin.
  destruct Hin as (y & Hy & Hin). apply filter_In in Hin.
  rewrite <- Hy. apply in_map. apply Hin.
Qed.

Lemma store_ok_remove (d : DB) (pk : Z) :
  store_ok d -> store_ok (reduced_store d pk).
Proof.
  intros [Hpk Hseq Hstart]. split; simpl.
  - now apply NoDup_map_filter.
  - intros x Hx. apply filter_In in Hx. now apply Hseq.
  - assumption.
Qed.


Lemma create_succeeds (e : Env) (d : DB) (U : User.t) (b : ContactModel.t) :
  store_ok d -> registered d U ->
  repository_contacts.create U b e (mk_St d fresh_session) =
  (Return (new_row e d U b),
   mk_St (extended_store e d U b) (mk_Session [] [contacts_id_seq d])).
Proof.
  intros [Hpk Hseq Hstart] Hreg. rewrite create_exec.
  apply registered_fk in Hreg. rewrite Hreg.
  unfold load, extended_store. simpl.
  change (contacts_id_seq d) with (Contact.id (new_row e d U b)) at 1.
  rewrite find_fresh; [reflexivity|].
  intros x Hx. apply Hseq in Hx. simpl. lia.
Qed.

(** C8. For a registered user, [create] succeeds, and the contact it
    returns carries every field of the body, belongs to the user, and has
    both timestamps set to the same instant; a get of its id by the same
    user, at any later time, returns that very contact. *)
Theorem create_then_get_roundtrip
  (d : DB) (e : Env) (U : User.t) (b : ContactModel.t) :
  store_ok d -> registered d U ->
  exists c d',
    run_request (repository_contacts.create U b) e d = (Return c, d') /\
    has_fields c b /\
    Contact.user_id c = Some (User.id U) /\
    Contact.created_at c = Some (now e) /\
    Contact.updated_at c = Contact.created_at c /\
    (forall e',
       run_request (repository_contacts.get_contact_by_id U (Contact.id c)) e' d'
         = (Return (Some c), d') /\
       run_request (routes.get_contact (Contact.id c) U) e' d' = (Return c, d')).
Proof.
  intros Hok Hreg.
  exists (new_row e d U b), (extended_store e d U b).
  pose proof (store_ok_create e U b Hok) as [Hpk' Hseq' _].
  assert (Hown : owns (extended_store e d U b) U (new_row e d U b)).
  { split; [|reflexivity]. simpl. apply in_or_app. right. now left. }
  assert (Hl : lookup_owned (extended_store e d U b) U (Contact.id (new_row e d U b))
               = Some (new_row e d U b)).
  { apply lookup_owned_complete; try assumption. }
  split; [|split; [apply new_row_fields|split; [reflexivity|split; [reflexivity|
    split; [reflexivity|]]]]].
  - unfold run_request. now rewrite create_succeeds.
  - intros e'. split.
    + unfold run_request. now rewrite get_contact_by_id_run, Hl.
    + unfold run_request, routes.get_contact.
      rewrite path_ge_ok by (apply Hseq'; apply Hown).
      unfold bind. now rewrite get_contact_by_id_run, Hl.
Qed.

(* ================================================================== *)
(** ** Matching of e-mail addresses *)

Lemma lower_ascii_escape (c : ascii) :
  Ascii.eqb (Sql.lower_ascii c) Sql.escape_char = Ascii.eqb c Sql.escape_char.
Proof.
  destruct c as [[] [] [] [] [] [] [] []]; reflexivity.
Qed.

Lemma escape_free_lower (s : string) : Sql.escape_free (Sql.lower s) = Sql.escape_free s.
Proof.
  induction s as [|c s IH]; simpl; [reflexivity|].
  now rewrite lower_ascii_escape, IH.
Qed.

(** Without an escape character in the pattern the match cannot raise. *)
Lemma like_total (p t : string) :
  Sql.escape_free p = true -> Sql.like p t <> None.
Proof.
  revert t. induction p as [|c p IH]; intros t Hfree.
  - destruct t; discriminate.
  - simpl in Hfree. apply andb_true_iff in Hfree. destruct Hfree as [Hc Hfree].
    apply negb_true_iff in Hc. simpl. rewrite Hc.
    destruct (Ascii.eqb c Sql.any_string).
    + induction t as [|x t IHt].
      * specialize (IH EmptyString Hfree). destruct (Sql.like p EmptyString) as [[]|];
          congruence.
      * specialize (IH (String x t) Hfree).
        destruct (Sql.like p (String x t)) as [[]|]; first [congruence | exact IHt].
    + destruct (Ascii.eqb c Sql.any_char).
      * destruct t; [discriminate|]. now apply IH.
      * destruct t as [|x t]; [discriminate|].
        destruct (Ascii.eqb x c); [now apply IH|discriminate].
Qed.

(** The search that [%] starts, one step at a time. *)
Lemma like_any_string (p t : string) :
  Sql.like (String Sql.any_string p) t =
  match Sql.like p t with
  | Some true => Some true
  | None => None
  | Some false =>
      match t with
      | EmptyString => Some false
      | String _ t' => Sql.like (String Sql.any_string p) t'
      end
  end.
Proof. destruct t; reflexivity. Qed.

(** A pattern without an escape character matches itself. *)
Lemma like_self (p : string) :
  Sql.escape_free p = true -> Sql.like p p = Some true.
Proof.
  induction p as [|c p IH]; intros Hfree; [reflexivity|].
  simpl in Hfree. apply andb_true_iff in Hfree. destruct Hfree as [Hc Hfree].
  apply negb_true_iff in Hc.
  destruct (Ascii.eqb_spec c Sql.any_string) as [->|Hany].
  - rewrite like_any_string.
    pose proof (@like_total p (String Sql.any_string p) Hfree) as Htot.
    destruct (Sql.like p (String Sql.any_string p)) as [[]|]; try congruence.
    rewrite like_any_string. now rewrite IH.
  - apply Ascii.eqb_neq in Hany. simpl. rewrite Hc, Hany.
    destruct (Ascii.eqb c Sql.any_char); [now apply IH|].
    rewrite Ascii.eqb_refl. now apply IH.
Qed.

Lemma ilike_pure (t p : string) :
  Sql.escape_free p = true ->
  Sql.ilike t p = Return (like_b (Sql.lower p) (Sql.lower t)).
Proof.
  intros Hfree. unfold Sql.ilike, like_b.
  pose proof (@like_total (Sql.lower p) (Sql.lower t)) as Htot.
  rewrite escape_free_lower in Htot. specialize (Htot Hfree).
  destruct (Sql.like _ _); congruence.
Qed.

Lemma ilike_same_fold (t p : string) :
  Sql.escape_free p = true -> Sql.lower t = Sql.lower p ->
  like_b (Sql.lower p) (Sql.lower t) = true.
Proof.
  intros Hfree Heq. unfold like_b. rewrite Heq, like_self; [reflexivity|].
  now rewrite escape_free_lower.
Qed.

Lemma get_contact_by_email_run
  (user : User.t) (email : string) (e : Env) (d : DB) (ss : Session) :
  Sql.escape_free email = true ->
  repository_contacts.get_contact_by_email user email e (mk_St d ss)
  = (Return (option_map fst (find (by_email_of user email) (join (contacts d) (users d)))),
     mk_St d ss).
Proof.
  intros Hfree. unfold repository_contacts.get_contact_by_email, query_first. simpl.
  rewrite (where_first_pure (by_email_of user email)); [reflexivity|].
  intros r _. rewrite ilike_pure by assumption.
  unfold repository_contacts.same_user, by_email_of. apply and_pure.
Qed.

(* ================================================================== *)
(** ** The duplicate check of [create_contact] *)

Lemma create_contact_conflict
  (d : DB) (e : Env) (U : User.t) (b : ContactModel.t) (c : Contact.t) :
  Sql.escape_free (ContactModel.email b) = true ->
  registered d U -> owns d U c ->
  Sql.lower (Contact.email c) = Sql.lower (ContactModel.email b) ->
  run_request (routes.create_contact b U) e d = (Raise routes.Conflict, d).
Proof.
  intros Hfree (u & Hu & Hid) (Hin & Hown) Hfold.
  unfold run_request, routes.create_contact, bind.
  rewrite get_contact_by_email_run by assumption.
  destruct (find _ _) as [r|] eqn:Hf; [reflexivity|].
  exfalso.
  assert (Hq : by_email_of U (ContactModel.email b) (c, u) = false).
  { apply (find_none _ _ Hf). apply in_join.
    repeat split; try assumption. now rewrite Hid. }
  unfold by_email_of in Hq. simpl in Hq.
  rewrite ilike_same_fold, Hid, Z.eqb_refl in Hq by assumption.
  discriminate.
Qed.


(** When [create_contact] returns, the store holds a contact of the
    user with the e-mail address of the body. *)
Lemma create_contact_stores
  (d d' : DB) (e : Env) (U : User.t) (b : ContactModel.t) (c : Contact.t) :
  Sql.escape_free (ContactModel.email b) = true ->
  run_request (routes.create_contact b U) e d = (Return c, d') ->
  registered d' U /\
  exists r, owns d' U r /\ Contact.email r = ContactModel.email b.
Proof.
  intros Hfree. unfold run_request, routes.create_contact, bind.
  rewrite get_contact_by_email_run by assumption.
  destruct (find _ _) as [r|]; simpl; [discriminate|].
  rewrite create_exec.
  destruct (fk_user_ok (users d) (Some (User.id U))) eqn:Hfk; [|discriminate].
  intros H. injection H as _ <-. split.
  - now apply registered_fk.
  - exists (new_row e d U b). split; [|reflexivity].
    split; [|reflexivity]. simpl. apply in_or_app. right. now left.
Qed.

(** C4. If the user already owns a contact with the e-mail address of the
    body, [create_contact] raises 409 Conflict and the store is what it was,
    so nothing new is stored. In particular, after one successful create a
    second create by the same user with the same address raises Conflict.
    The address of a body is an [EmailStr], which never contains the
    escape character of LIKE. *)
Theorem create_duplicate_email_conflict
  (d : DB) (e : Env) (U : User.t) (b : ContactModel.t) :
  Sql.escape_free (ContactModel.email b) = true ->
  (forall c,
     registered d U -> owns d U c -> Contact.email c = ContactModel.email b ->
     run_request (routes.create_contact b U) e d = (Raise routes.Conflict, d)) /\
  (forall b0 e0 d0 c0,
     ContactModel.email b0 = ContactModel.email b ->
     run_request (routes.create_contact b0 U) e0 d0 = (Return c0, d) ->
     run_request (routes.create_contact b U) e d = (Raise routes.Conflict, d)).
Proof.
  intros Hfree. split.
  - intros c Hreg Hown Hmail.
    apply create_contact_conflict with (c := c); try assumption. now rewrite Hmail.
  - intros b0 e0 d0 c0 Hmail Hfirst.
    assert (Hfree0 : Sql.escape_free (ContactModel.email b0) = true)
      by now rewrite Hmail.
    destruct (@create_contact_stores _ _ _ _ _ _ Hfree0 Hfirst) as (Hreg & r & Hown & Hr).
    apply create_contact_conflict with (c := r); try assumption. now rewrite Hr, Hmail.
Qed.


(* ================================================================== *)
(** ** The calendar *)

Ltac month_cases m :=
  let H := fresh in
  assert (H : m = 1 \/ m = 2 \/ m = 3 \/ m = 4 \/ m = 5 \/ m = 6 \/
              m = 7 \/ m = 8 \/ m = 9 \/ m = 10 \/ m = 11 \/ m = 12) by lia;
  destruct H as [H|[H|[H|[H|[H|[H|[H|[H|[H|[H|[H|H]]]]]]]]]]]; subst m.

Ltac calendar := cbn -[Z.add Z.sub Z.mul] in *.

Lemma valid_bounds (t : datetime) :
  valid t = true ->
  1 <= year t <= 9999 /\ 1 <= month t <= 12 /\
  1 <= day t <= days_in_month (year t) (month t) /\
  0 <= hour t <= 23 /\ 0 <= minute t <= 59 /\ 0 <= second t <= 59 /\
  0 <= microsecond t <= 999999.
Proof.
  unfold valid, check_date_fields, check_time_fields, MINYEAR, MAXYEAR.
  rewrite !andb_true_iff, !Z.leb_le. tauto.
Qed.

Lemma days_in_month_le_31 (y m : Z) : days_in_month y m <= 31.
Proof.
  unfold days_in_month. destruct ((m =? 2) && is_leap y); [lia|].
  unfold DAYS_IN_MONTH.
  destruct m as [|p|p]; try lia.
  destruct p as [[[[?|?|]|[?|?|]|]|[[?|?|]|[?|?|]|]|]|[[[?|?|]|[?|?|]|]|[[?|?|]|[?|?|]|]|]|];
    lia.
Qed.

Lemma valid_md_in_range (t : datetime) : valid t = true -> md_in_range t.
Proof.
  intros H. apply valid_bounds in H. unfold md_in_range.
  pose proof (days_in_month_le_31 (year t) (month t)). lia.
Qed.

Lemma is_leap_spec (y : Z) :
  is_leap y = true <-> (y mod 4 = 0 /\ (y mod 100 <> 0 \/ y mod 400 = 0)).
Proof.
  unfold is_leap.
  rewrite andb_true_iff, orb_true_iff, negb_true_iff, !Z.eqb_eq, Z.eqb_neq. tauto.
Qed.

(** A year has 365 days, and one more when it is a leap year. *)
Lemma days_before_year_step (y : Z) :
  days_before_year (y + 1) = days_before_year y + 365 + (if is_leap y then 1 else 0).
Proof.
  unfold days_before_year. cbv zeta.
  replace (y + 1 - 1) with y by lia.
  destruct (is_leap y) eqn:E.
  - apply is_leap_spec in E. Z.div_mod_to_equations; lia.
  - assert (~ (y mod 4 = 0 /\ (y mod 100 <> 0 \/ y mod 400 = 0)))
      by (rewrite <- is_leap_spec; congruence).
    Z.div_mod_to_equations; lia.
Qed.

Lemma days_before_year_mono (y y' : Z) :
  y <= y' -> days_before_year y <= days_before_year y'.
Proof.
  intros H. replace y' with (y + Z.of_nat (Z.to_nat (y' - y))) by lia.
  generalize (Z.to_nat (y' - y)) as n. clear. intros n.
  induction n as [|n IH].
  - change (Z.of_nat 0) with 0. rewrite Z.add_0_r. lia.
  - rewrite Nat2Z.inj_succ.
    replace (y + Z.succ (Z.of_nat n)) with (y + Z.of_nat n + 1) by lia.
    rewrite days_before_year_step. destruct (is_leap (y + Z.of_nat n)); lia.
Qed.

Lemma leap_years_apart (y : Z) : is_leap y = true -> is_leap (y + 1) = false.
Proof.
  intros H. apply is_leap_spec in H.
  destruct (is_leap (y + 1)) eqn:E; [|reflexivity].
  apply is_leap_spec in E. exfalso. Z.div_mod_to_equations; lia.
Qed.

Lemma day_of_year_range (y m d : Z) :
  1 <= m <= 12 -> 1 <= d <= days_in_month y m ->
  1 <= day_of_year y m d <= 365 + (if is_leap y then 1 else 0).
Proof.
  intros Hm Hd. unfold day_of_year, days_before_month, days_in_month in *.
  month_cases m; destruct (is_leap y); calendar; lia.
Qed.

Lemma day_of_year_lex (y m1 d1 m2 d2 : Z) :
  1 <= m1 <= 12 -> 1 <= d1 <= days_in_month y m1 ->
  1 <= m2 <= 12 -> 1 <= d2 <= days_in_month y m2 ->
  m1 < m2 -> day_of_year y m1 d1 < day_of_year y m2 d2.
Proof.
  intros Hm1 Hd1 Hm2 Hd2 Hlt. unfold day_of_year, days_before_month, days_in_month in *.
  month_cases m1; month_cases m2; try lia; destruct (is_leap y); calendar; lia.
Qed.

(** The same month and day one year later is at most 366 days later. *)
Lemma day_of_year_next (y m d : Z) :
  day_of_year (y + 1) m d + (if is_leap y then 1 else 0) <= day_of_year y m d + 1.
Proof.
  unfold day_of_year, days_before_month.
  destruct (is_leap y) eqn:E.
  - rewrite (leap_years_apart y E). destruct (2 <? m); simpl; lia.
  - destruct (2 <? m), (is_leap (y + 1)); simpl; lia.
Qed.

Lemma time_us_range (t : datetime) :
  valid t = true -> 0 <= time_us t < US_PER_DAY.
Proof.
  intros H. apply valid_bounds in H. unfold time_us, US_PER_DAY. lia.
Qed.

Lemma time_compare (h mi s us h' mi' s' us' : Z) :
  0 <= mi <= 59 -> 0 <= s <= 59 -> 0 <= us <= 999999 ->
  0 <= mi' <= 59 -> 0 <= s' <= 59 -> 0 <= us' <= 999999 ->
  lex_compare [h; mi; s; us] [h'; mi'; s'; us'] =
  (((h * 60 + mi) * 60 + s) * 1000000 + us
   ?= ((h' * 60 + mi') * 60 + s') * 1000000 + us').
Proof.
  intros. simpl.
  destruct (Z.compare_spec h h'); destruct (Z.compare_spec mi mi');
    destruct (Z.compare_spec s s'); destruct (Z.compare_spec us us');
    symmetry;
    first [apply Z.compare_eq_iff | apply Z.compare_lt_iff | apply Z.compare_gt_iff]; lia.
Qed.

Lemma toordinal_year_range (t : datetime) :
  valid t = true ->
  days_before_year (year t) + 1 <= toordinal t <= days_before_year (year t + 1).
Proof.
  intros H. apply valid_bounds in H. destruct H as (_ & Hm & Hd & _).
  pose proof (day_of_year_range (year t) Hm Hd) as Hr.
  unfold toordinal, ymd2ord. unfold day_of_year in Hr.
  rewrite days_before_year_step. lia.
Qed.

(** Python's comparison of two datetimes is their order on the timeline. *)
Lemma cmp_total_us (a b : datetime) :
  valid a = true -> valid b = true -> cmp a b = (total_us a ?= total_us b).
Proof.
  intros Ha Hb.
  pose proof (toordinal_year_range a Ha) as Hoa.
  pose proof (toordinal_year_range b Hb) as Hob.
  pose proof (time_us_range a Ha) as Hta.
  pose proof (time_us_range b Hb) as Htb.
  pose proof (valid_bounds a Ha) as (Hya & Hma & Hda & Hha & Hmia & Hsa & Husa).
  pose proof (valid_bounds b Hb) as (Hyb & Hmb & Hdb & Hhb & Hmib & Hsb & Husb).
  assert (Hord : forall c, (toordinal a ?= toordinal b) = c -> c <> Eq ->
                           (total_us a ?= total_us b) = c).
  { intros c Hc Hne. unfold total_us, US_PER_DAY in *.
    destruct c; [congruence| |].
    - rewrite Z.compare_lt_iff in *. lia.
    - rewrite Z.compare_gt_iff in *. lia. }
  unfold cmp, fields.
  change (lex_compare
            [year a; month a; day a; hour a; minute a; second a; microsecond a]
            [year b; month b; day b; hour b; minute b; second b; microsecond b])
    with (match year a ?= year b with
          | Eq => match month a ?= month b with
                  | Eq => match day a ?= day b with
                          | Eq => lex_compare [hour a; minute a; second a; microsecond a]
                                    [hour b; minute b; second b; microsecond b]
                          | c => c
                          end
                  | c => c
                  end
          | c => c
          end).
  destruct (Z.compare_spec (year a) (year b)) as [Hy|Hy|Hy].
  - destruct (Z.compare_spec (month a) (month b)) as [Hm|Hm|Hm].
    + destruct (Z.compare_spec (day a) (day b)) as [Hd|Hd|Hd].
      * rewrite time_compare by assumption.
        unfold total_us, toordinal, time_us. rewrite Hy, Hm, Hd.
        symmetry. apply Z.add_compare_mono_l.
      * symmetry. apply Hord; [|discriminate]. apply Z.compare_lt_iff.
        unfold toordinal, ymd2ord. rewrite Hy, Hm. lia.
      * symmetry. apply Hord; [|discriminate]. apply Z.compare_gt_iff.
        unfold toordinal, ymd2ord. rewrite Hy, Hm. lia.
    + symmetry. apply Hord; [|discriminate]. apply Z.compare_lt_iff.
      rewrite Hy in Hda.
      pose proof (day_of_year_lex (year b) Hma Hda Hmb Hdb Hm) as Hlt.
      unfold toordinal, ymd2ord, day_of_year in *. rewrite Hy. lia.
    + symmetry. apply Hord; [|discriminate]. apply Z.compare_gt_iff.
      rewrite Hy in Hda.
      pose proof (day_of_year_lex (year b) Hmb Hdb Hma Hda Hm) as Hlt.
      unfold toordinal, ymd2ord, day_of_year in *. rewrite Hy. lia.
  - symmetry. apply Hord; [|discriminate]. apply Z.compare_lt_iff.
    pose proof (@days_before_year_mono (year a + 1) (year b) ltac:(lia)). lia.
  - symmetry. apply Hord; [|discriminate]. apply Z.compare_gt_iff.
    pose proof (@days_before_year_mono (year b + 1) (year a) ltac:(lia)). lia.
Qed.

(* ================================================================== *)
(** ** Days to the next birthday *)

Lemma days_to_next_birthday_run (c : Contact.t) (e : Env) (s : St) :
  days_to_next_birthday c e s = (next_birthday_days (Contact.birthday c) (today e), s).
Proof.
  unfold days_to_next_birthday, next_birthday_days, bind, datetime_today, lift, ret.
  destruct (replace_year _ _) as [nb|x]; [|reflexivity].
  destruct (lt nb (today e)); [|reflexivity].
  destruct (datetime_new _ _ _ _ _ _ _); reflexivity.
Qed.

Lemma lt_total_us (a b : datetime) :
  valid a = true -> valid b = true ->
  (lt a b = true -> total_us a < total_us b) /\
  (lt a b = false -> total_us b <= total_us a).
Proof.
  intros Ha Hb. unfold lt. rewrite (cmp_total_us a b Ha Hb).
  destruct (Z.compare_spec (total_us a) (total_us b)); split; intros; try discriminate; lia.
Qed.

(** Whenever the three lines of [days_to_next_birthday] produce a number,
    it lies between 0 and 365. *)
Lemma next_birthday_days_range (b t : datetime) (n : Z) :
  valid b = true -> valid t = true ->
  next_birthday_days b t = Return n -> 0 <= n <= 365.
Proof.
  intros Hb Ht. unfold next_birthday_days, replace_year, datetime_new.
  destruct (check_date_fields (year t) (month b) (day b) &&
            check_time_fields (hour b) (minute b) (second b) (microsecond b)) eqn:Hnb;
    [|discriminate].
  set (nb := mk_datetime (year t) (month b) (day b) (hour b) (minute b) (second b)
               (microsecond b)) in *.
  assert (Hvnb : valid nb = true) by exact Hnb.
  pose proof (lt_total_us nb t Hvnb Ht) as [Hlt Hge].
  pose proof (toordinal_year_range t Ht) as Hot.
  pose proof (toordinal_year_range nb Hvnb) as Honb.
  pose proof (time_us_range t Ht) as Htt.
  pose proof (time_us_range nb Hvnb) as Htnb.
  change (year nb) with (year t) in *.
  destruct (lt nb t).
  - cbn [year month day nb].
    destruct (check_date_fields (year t + 1) (month b) (day b) &&
              check_time_fields 0 0 0 0) eqn:Hnb'; [|discriminate].
    set (nb' := mk_datetime (year t + 1) (month b) (day b) 0 0 0 0) in *.
    assert (Hvnb' : valid nb' = true) by exact Hnb'.
    pose proof (toordinal_year_range nb' Hvnb') as Honb'.
    change (year nb') with (year t + 1) in *.
    pose proof (day_of_year_next (year t) (month b) (day b)) as Hnext.
    pose proof (days_before_year_step (year t)) as Hstep.
    specialize (Hlt eq_refl).
    intros H. injection H as <-.
    unfold sub_days.
    assert (Hdiff : 0 <= total_us nb' - total_us t < 366 * US_PER_DAY).
    { unfold total_us, toordinal, ymd2ord, day_of_year in *.
      cbn [year month day nb nb'] in *.
      change (time_us nb') with 0. unfold US_PER_DAY in *.
      destruct (is_leap (year t)); lia. }
    unfold US_PER_DAY in *. Z.div_mod_to_equations; lia.
  - specialize (Hge eq_refl).
    pose proof (days_before_year_step (year t)) as Hstep.
    intros H. injection H as <-.
    unfold sub_days.
    assert (Hdiff : 0 <= total_us nb - total_us t < 366 * US_PER_DAY).
    { unfold total_us in *. unfold US_PER_DAY in *.
      destruct (is_leap (year t)); lia. }
    unfold US_PER_DAY in *. Z.div_mod_to_equations; lia.
Qed.

Lemma days_in_month_other_year (y y' m d : Z) :
  d <= days_in_month y m -> ~ (m = 2 /\ d = 29) -> d <= days_in_month y' m.
Proof.
  unfold days_in_month. intros Hd Hno.
  destruct (Z.eqb_spec m 2) as [->|Hm]; simpl in *.
  - destruct (is_leap y), (is_leap y'); simpl in *; lia.
  - exact Hd.
Qed.

(** The function returns for every birthday other than 29 February, as
    long as the clock is before the year 9999. *)
Lemma next_birthday_days_total (b t : datetime) :
  valid b = true -> valid t = true ->
  ~ (month b = 2 /\ day b = 29) -> year t < 9999 ->
  exists n, next_birthday_days b t = Return n /\ 0 <= n <= 365.
Proof.
  intros Hb Ht Hno Hy.
  pose proof (valid_bounds b Hb) as (Hyb & Hmb & Hdb & Hhb & Hmib & Hsb & Husb).
  pose proof (valid_bounds t Ht) as (Hyt & _).
  assert (Hdate : forall y, 1 <= y <= 9999 ->
                            check_date_fields y (month b) (day b) = true).
  { intros y Hyr. unfold check_date_fields, MINYEAR, MAXYEAR.
    pose proof (@days_in_month_other_year (year b) y (month b) (day b) (proj2 Hdb) Hno).
    rewrite !andb_true_iff, !Z.leb_le. lia. }
  assert (Htime : check_time_fields (hour b) (minute b) (second b) (microsecond b) = true).
  { unfold check_time_fields. rewrite !andb_true_iff, !Z.leb_le. lia. }
  assert (Hret : exists n, next_birthday_days b t = Return n).
  { unfold next_birthday_days, replace_year, datetime_new.
    rewrite (Hdate (year t)), Htime by lia. cbn [andb year month day].
    destruct (lt _ t); [|eexists; reflexivity].
    rewrite (Hdate (year t + 1)) by lia. cbn. eexists; reflexivity. }
  destruct Hret as [n Hn]. exists n. split; [assumption|].
  now apply (next_birthday_days_range b t).
Qed.

(** A birthday on 29 February makes the function raise in every year
    that is not a leap year. *)
Lemma next_birthday_days_feb_29 (b t : datetime) :
  month b = 2 -> day b = 29 -> is_leap (year t) = false ->
  next_birthday_days b t = Raise ValueError.
Proof.
  intros Hm Hd Hleap.
  unfold next_birthday_days, replace_year, datetime_new, check_date_fields, days_in_month.
  rewrite Hm, Hd, Hleap. cbn [Z.eqb Pos.eqb andb DAYS_IN_MONTH].
  change (29 <=? 28) with false. now rewrite andb_false_r.
Qed.

(** C9 (the code departs from the claim). The value is derived while the
    response is built and is not a column, but it is not defined for every
    contact and date: for a contact born on 29 February 2000, read on
    1 June 2023, [days_to_next_birthday] raises [ValueError], and so does
    the response of the get route, instead of yielding a number in
    [0, 365]. *)
Theorem days_to_next_birthday_raises_on_29_february :
  let born := Sample.at_midnight 2000 2 29 in
  let c := Contact.mk 3 "Leap" "Day" "leap@example.com" "+380503333333" born
             (Some "") (Some 1) Sample.stamp Sample.stamp in
  let d := mk_DB [Sample.alice; Sample.bob] [Sample.taras; Sample.lesya; c] 4 0 in
  valid born = true /\ valid (today Sample.clock) = true /\
  run_request (days_to_next_birthday c) Sample.clock d = (Raise ValueError, d) /\
  run_request (response_model (routes.get_contact 3 Sample.alice)) Sample.clock d
    = (Raise ValueError, d).
Proof. vm_compute. repeat split. Qed.

(* ================================================================== *)
(** ** The birthdays of the next week *)

Lemma days_in_month_ge_28 (y m : Z) : 1 <= m <= 12 -> 28 <= days_in_month y m.
Proof.
  intros Hm. unfold days_in_month. month_cases m; destruct (is_leap y); calendar; lia.
Qed.

(** The table of days before a month is the running sum of the lengths. *)
Lemma days_before_month_step (y m m' : Z) :
  1 <= m <= 11 -> m' = m + 1 ->
  days_before_month y m' = days_before_month y m + days_in_month y m.
Proof.
  intros Hm Hm'. unfold days_before_month, days_in_month.
  month_cases m; try lia; calendar; subst m'; destruct (is_leap y); reflexivity.
Qed.

Lemma next_day_date_ok (t : datetime) : date_ok t -> date_ok (next_day t).
Proof.
  unfold date_ok, next_day. intros [Hm Hd].
  destruct (Z.ltb_spec (day t) (days_in_month (year t) (month t))) as [Hlt|Hge].
  - cbn [year month day]. lia.
  - destruct (Z.ltb_spec (month t) 12) as [Hlt12|Hge12]; cbn [year month day].
    + pose proof (@days_in_month_ge_28 (year t) (month t + 1) ltac:(lia)). lia.
    + pose proof (@days_in_month_ge_28 (year t + 1) 1 ltac:(lia)). lia.
Qed.

Lemma iter_next_day_date_ok (n : nat) (t : datetime) :
  date_ok t -> date_ok (Nat.iter n next_day t).
Proof.
  intros H. induction n as [|n IH]; simpl; [assumption|]. now apply next_day_date_ok.
Qed.

Lemma date_ok_md_in_range (t : datetime) : date_ok t -> md_in_range t.
Proof.
  unfold date_ok, md_in_range. intros [Hm Hd].
  pose proof (days_in_month_le_31 (year t) (month t)). lia.
Qed.

(** The next day is the next ordinal. *)
Lemma toordinal_next_day (t : datetime) :
  date_ok t -> toordinal (next_day t) = toordinal t + 1.
Proof.
  unfold date_ok, next_day, toordinal, ymd2ord. intros [Hm Hd].
  destruct (Z.ltb_spec (day t) (days_in_month (year t) (month t))) as [Hlt|Hge].
  - cbn [year month day]. lia.
  - destruct (Z.ltb_spec (month t) 12) as [Hlt12|Hge12]; cbn [year month day].
    + rewrite (@days_before_month_step (year t) (month t) (month t + 1)) by lia. lia.
    + assert (Hm12 : month t = 12) by lia. rewrite Hm12 in *.
      rewrite days_before_year_step.
      unfold days_before_month, days_in_month in *.
      destruct (is_leap (year t)); calendar; lia.
Qed.

(** Adding days adds to the ordinal, as [timedelta] arithmetic does. *)
Lemma toordinal_add_days (t t' : datetime) (n : nat) :
  date_ok t -> add_days t n = Return t' ->
  toordinal t' = toordinal t + Z.of_nat n /\ date_ok t'.
Proof.
  intros Hok. unfold add_days.
  destruct (toordinal t + Z.of_nat n <=? MAXORDINAL); [|discriminate].
  intros H. injection H as <-. split; [|now apply iter_next_day_date_ok].
  induction n as [|n IH]; [simpl; lia|].
  cbn [Nat.iter nat_rect]. change (nat_rect _ t (fun _ => next_day) n)
    with (Nat.iter n next_day t).
  rewrite toordinal_next_day by now apply iter_next_day_date_ok. lia.
Qed.

(** From 25 December on, seven days later is in January. *)
Lemma december_plus_week (y dd h mi s us : Z) :
  25 <= dd <= 31 ->
  Nat.iter 7 next_day (mk_datetime y 12 dd h mi s us)
  = mk_datetime (y + 1) 1 (dd - 24) h mi s us.
Proof.
  intros H.
  assert (Hd : dd = 25 \/ dd = 26 \/ dd = 27 \/ dd = 28 \/ dd = 29 \/ dd = 30 \/ dd = 31)
    by lia.
  destruct Hd as [Hd|[Hd|[Hd|[Hd|[Hd|[Hd|Hd]]]]]]; subst dd; reflexivity.
Qed.

Lemma week_in_range (t : datetime) :
  valid t = true -> year t < 9999 -> (toordinal t + Z.of_nat 7 <=? MAXORDINAL) = true.
Proof.
  intros Hv Hy. apply Z.leb_le.
  pose proof (toordinal_year_range t Hv) as Hr.
  pose proof (@days_before_year_mono (year t + 1) 9999 ltac:(lia)) as Hmono.
  change (days_before_year 9999) with 3651694 in Hmono.
  unfold MAXORDINAL. lia.
Qed.

(** A window whose lower bound starts with a greater character than its
    upper bound holds no string. *)
Lemma window_first_char (c1 c2 : ascii) (r1 r2 s : string) :
  Ascii.compare c2 c1 = Lt ->
  String.leb (String c1 r1) s && String.leb s (String c2 r2) = false.
Proof.
  intros Hlt. destruct s as [|x t]; [reflexivity|].
  unfold String.leb. cbn [String.compare].
  unfold Ascii.compare in *. rewrite N.compare_lt_iff in Hlt.
  destruct (N.compare_spec (N_of_ascii c1) (N_of_ascii x)) as [H1|H1|H1];
    destruct (N.compare_spec (N_of_ascii x) (N_of_ascii c2)) as [H2|H2|H2];
    rewrite ?andb_false_r; try reflexivity; exfalso; lia.
Qed.

Lemma where_all_none {R} (p : R -> outcome bool) (rows : list R) :
  (forall r, p r = Return false) -> where_all p rows = Return [].
Proof.
  intros Hp. rewrite (where_all_pure (fun _ => false)).
  - now rewrite filter_nothing.
  - intros r _. apply Hp.
Qed.

(** C3. The window is a comparison of the strings MM-DD of today and of
    today plus seven days. From 25 to 31 December the second date is in
    January, so the upper string is smaller than the lower one, no string
    lies between them, and the query returns no contact at all, whatever
    the birthdays in the store: those of early January are not returned. *)
Theorem year_end_window_is_empty (d : DB) (e : Env) (U : User.t) :
  valid (today e) = true ->
  month (today e) = 12 -> 25 <= day (today e) -> year (today e) < 9999 ->
  exists next_week,
    add_days (today e) 7 = Return next_week /\
    year next_week = year (today e) + 1 /\ month next_week = 1 /\
    day next_week = day (today e) - 24 /\
    String.ltb (to_char_MM_DD next_week) (to_char_MM_DD (today e)) = true /\
    (forall s, String.leb (to_char_MM_DD (today e)) s &&
               String.leb s (to_char_MM_DD next_week) = false) /\
    run_request (repository_contacts.get_next_week_birthday_contacts U) e d
      = (Return [], d).
Proof.
  intros Hv Hm Hd Hy.
  pose proof (week_in_range (today e) Hv Hy) as Hweek.
  pose proof (valid_md_in_range (today e) Hv) as [_ Hd31].
  destruct (today e) as [y m dd h mi s us] eqn:Ht. cbn [year month day] in *. subst m.
  assert (Hiter := @december_plus_week y dd h mi s us ltac:(lia)).
  assert (Hwin : forall x,
            String.leb (to_char_MM_DD (mk_datetime y 12 dd h mi s us)) x &&
            String.leb x (to_char_MM_DD (mk_datetime (y + 1) 1 (dd - 24) h mi s us))
            = false).
  { intros x. apply window_first_char. reflexivity. }
  exists (mk_datetime (y + 1) 1 (dd - 24) h mi s us).
  split; [|split; [reflexivity|split; [reflexivity|split; [reflexivity|split;
    [reflexivity|split; [exact Hwin|]]]]]].
  - unfold add_days. now rewrite Hweek, Hiter.
  - unfold run_request, repository_contacts.get_next_week_birthday_contacts, bind,
      datetime_today, lift, query_all.
    rewrite Ht. unfold add_days. rewrite Hweek, Hiter. cbn [db].
    rewrite where_all_none; [reflexivity|].
    intros r. specialize (Hwin (to_char_MM_DD (Contact.birthday (fst r)))).
    destruct (String.leb _ (to_char_MM_DD (Contact.birthday (fst r)))); [|reflexivity].
    simpl in Hwin. cbn [Sql.and_]. now rewrite Hwin.
Qed.

(** The strings MM-DD are ordered as the pairs of month and day are, for
    every month and day of the month: checked pair by pair. *)
Lemma to_char_leb_table :
  forallb (fun a =>
    forallb (fun b =>
      Bool.eqb (String.leb (to_char_MM_DD (md_date a)) (to_char_MM_DD (md_date b)))
               (md_le (md_date a) (md_date b)))
      md_table)
    md_table = true.
Proof. vm_compute. reflexivity. Qed.

Lemma in_md_table (t : datetime) : md_in_range t -> In (month t, day t) md_table.
Proof.
  intros [Hm Hd]. unfold md_table. apply in_prod.
  - apply in_map_iff. exists (Z.to_nat (month t)). split; [lia|]. apply in_seq. lia.
  - apply in_map_iff. exists (Z.to_nat (day t)). split; [lia|]. apply in_seq. lia.
Qed.

Lemma to_char_leb (a b : datetime) :
  md_in_range a -> md_in_range b ->
  String.leb (to_char_MM_DD a) (to_char_MM_DD b) = md_le a b.
Proof.
  intros Ha Hb. apply in_md_table in Ha, Hb.
  pose proof to_char_leb_table as Htab.
  rewrite forallb_forall in Htab. specialize (Htab _ Ha).
  rewrite forallb_forall in Htab. specialize (Htab _ Hb).
  apply Bool.eqb_prop in Htab. exact Htab.
Qed.

(** What the query of the birthdays returns when the birthdays in the
    store are dates of the calendar: the contacts of the user whose month
    and day lie, in calendar order, from those of today to those of today
    plus seven days. *)
Lemma next_week_birthday_contacts_run (d : DB) (e : Env) (U : User.t) (next_week : datetime) :
  valid (today e) = true ->
  add_days (today e) 7 = Return next_week ->
  (forall c, In c (contacts d) -> md_in_range (Contact.birthday c)) ->
  run_request (repository_contacts.get_next_week_birthday_contacts U) e d
  = (Return (map fst (filter (in_window_of U (today e) next_week)
                        (join (contacts d) (users d)))), d).
Proof.
  intros Hv Hadd Hbd.
  assert (Hok : date_ok (today e)).
  { apply valid_bounds in Hv. split; apply Hv. }
  pose proof (toordinal_add_days 7 Hok Hadd) as [_ Hok'].
  apply date_ok_md_in_range in Hok, Hok'.
  unfold run_request, repository_contacts.get_next_week_birthday_contacts, bind,
    datetime_today, lift, query_all.
  rewrite Hadd. cbn [db].
  rewrite (where_all_pure (in_window_of U (today e) next_week)); [reflexivity|].
  intros [c u] Hin. apply in_join in Hin. destruct Hin as (Hc & _ & _).
  specialize (Hbd c Hc). cbn [fst snd].
  rewrite !to_char_leb by assumption.
  unfold repository_contacts.same_user, in_window_of. cbn [fst snd].
  now rewrite !and_pure.
Qed.

(** C2 (the code departs from the claim). On 28 December 2023 the user
    owns three contacts whose birthdays, by month and day, are today
    (28 December), in two days (30 December) and in seven days (4 January),
    so all three fall within the next seven days; the query returns none
    of them. *)
Theorem next_week_birthdays_missed_at_year_end :
  let e := mk_Env (mk_datetime 2023 12 28 10 0 0 0) (mk_datetime 2023 12 28 10 0 0 0) in
  let born m d := Contact.mk d "Name" "Surname" "name@example.com" "+380504444444"
                    (Sample.at_midnight 1990 m d) (Some "") (Some 1)
                    Sample.stamp Sample.stamp in
  let d := mk_DB [Sample.alice] [born 12 28; born 12 30; born 1 4] 31 0 in
  add_days (today e) 0 = Return (mk_datetime 2023 12 28 10 0 0 0) /\
  add_days (today e) 2 = Return (mk_datetime 2023 12 30 10 0 0 0) /\
  add_days (today e) 7 = Return (mk_datetime 2024 1 4 10 0 0 0) /\
  run_request (repository_contacts.get_contacts Sample.alice) e d
    = (Return [born 12 28; born 12 30; born 1 4], d) /\
  run_request (repository_contacts.get_next_week_birthday_contacts Sample.alice) e d
    = (Return [], d).
Proof. vm_compute. repeat split. Qed.

(* ================================================================== *)
(** ** The statements at the sample store *)

Lemma sample_store_ok : store_ok Sample.store.
Proof.
  split.
  - simpl. repeat constructor; simpl; intuition discriminate.
  - intros c [<-|[<-|[]]]; simpl; lia.
  - simpl. lia.
Qed.

Lemma sample_alice_registered : registered Sample.store Sample.alice.
Proof. exists Sample.alice. split; [now left|reflexivity]. Qed.


Lemma sample_alice_owns_taras : owns Sample.store Sample.alice Sample.taras.
Proof. split; [now left|reflexivity]. Qed.


Lemma sample_users_differ : User.id Sample.alice <> User.id Sample.bob.
Proof. discriminate. Qed.

Lemma sample_bob_has_no_1 :
  forall c, In c (contacts Sample.store) -> Contact.id c = 1 ->
            Contact.user_id c <> Some (User.id Sample.bob).
Proof. intros c [<-|[<-|[]]]; simpl; intros; discriminate. Qed.


Lemma sample_created_owned :
  owns Sample.store_after_create Sample.alice Sample.created.
Proof. split; [right; right; now left|reflexivity]. Qed.

Lemma other_user_contact_not_found_witness :
  store_ok Sample.store /\
  owns Sample.store Sample.alice Sample.taras /\
  User.id Sample.alice <> User.id Sample.bob /\
  run_request (routes.get_contact 1 Sample.bob) Sample.clock Sample.store
    = (Raise routes.NotFound, Sample.store).
Proof.
  split; [exact sample_store_ok|]. split; [exact sample_alice_owns_taras|].
  split; [exact sample_users_differ|].
  exact (proj1 (proj2 (@other_user_contact_not_found Sample.store Sample.clock
                         Sample.alice Sample.bob Sample.taras Sample.body
                         sample_store_ok sample_alice_owns_taras sample_users_differ))).
Defined.

Lemma update_missing_leaves_store_witness :
  run_request (repository_contacts.update Sample.bob 1 Sample.body) Sample.clock Sample.store
    = (Return None, Sample.store).
Proof.
  exact (proj1 (@update_missing_leaves_store Sample.store Sample.clock Sample.bob 1
                  Sample.body sample_bob_has_no_1)).
Defined.

Lemma remove_then_get_not_found_witness :
  exists d',
    run_request (routes.remove_contact 1 Sample.alice) Sample.clock Sample.store
      = (Return Sample.taras, d') /\
    run_request (routes.get_contact 1 Sample.alice) Sample.year_end d'
      = (Raise routes.NotFound, d').
Proof.
  destruct (@remove_then_get_not_found Sample.store Sample.clock Sample.alice Sample.taras
              sample_store_ok sample_alice_registered sample_alice_owns_taras)
    as (d' & Hrun & _ & Hget).
  exists d'. split; [exact Hrun|]. exact (proj2 (Hget Sample.alice Sample.year_end)).
Defined.

Lemma update_replaces_fields_witness :
  exists c' d',
    run_request (repository_contacts.update Sample.alice 1 Sample.body)
      Sample.clock Sample.store = (Return (Some c'), d') /\
    has_fields c' Sample.body /\
    Contact.updated_at c' = Some (now Sample.clock).
Proof.
  destruct (@update_replaces_fields Sample.store Sample.clock Sample.alice Sample.taras
              Sample.body sample_store_ok sample_alice_registered
              sample_alice_owns_taras)
    as (c' & d' & Hrun & _ & _ & Hf & _ & _ & _ & Hnew & _).
  exists c', d'. split; [exact Hrun|]. split; [exact Hf|]. apply Hnew.
  intros (Hfn & _). discriminate Hfn.
Defined.

Lemma create_then_get_roundtrip_witness :
  exists c d',
    run_request (repository_contacts.create Sample.alice Sample.body)
      Sample.clock Sample.store = (Return c, d') /\
    has_fields c Sample.body /\
    Contact.updated_at c = Contact.created_at c /\
    run_request (routes.get_contact (Contact.id c) Sample.alice) Sample.year_end d'
      = (Return c, d').
Proof.
  destruct (@create_then_get_roundtrip Sample.store Sample.clock Sample.alice Sample.body
              sample_store_ok sample_alice_registered)
    as (c & d' & Hrun & Hf & _ & _ & Hts & Hget).
  exists c, d'. split; [exact Hrun|]. split; [exact Hf|]. split; [exact Hts|].
  exact (proj2 (Hget Sample.year_end)).
Defined.

Lemma year_end_window_is_empty_witness :
  run_request (repository_contacts.get_next_week_birthday_contacts Sample.alice)
    Sample.year_end Sample.store = (Return [], Sample.store).
Proof.
  destruct (@year_end_window_is_empty Sample.store Sample.year_end Sample.alice
              eq_refl eq_refl ltac:(discriminate) eq_refl)
    as (next_week & _ & _ & _ & _ & _ & _ & Hrun).
  exact Hrun.
Defined.

Lemma create_duplicate_email_conflict_witness :
  run_request (routes.create_contact Sample.body Sample.alice) Sample.clock Sample.store
    = (Return Sample.created, Sample.store_after_create) /\
  run_request (routes.create_contact Sample.body Sample.alice)
    Sample.year_end Sample.store_after_create
    = (Raise routes.Conflict, Sample.store_after_create).
Proof.
  assert (Hfirst :
            run_request (routes.create_contact Sample.body Sample.alice)
              Sample.clock Sample.store
            = (Return Sample.created, Sample.store_after_create)) by reflexivity.
  split; [exact Hfirst|].
  exact (proj2 (@create_duplicate_email_conflict Sample.store_after_create Sample.year_end
                  Sample.alice Sample.body eq_refl)
           Sample.body Sample.clock Sample.store Sample.created eq_refl Hfirst).
Defined.


(* ================================================================== *)
(** ** Listing and searching *)

Lemma query_all_pure (q : Contact.t * User.t -> bool) (p : Contact.t -> User.t -> outcome bool)
  (e : Env) (d : DB) (ss : Session) :
  (forall r, p (fst r) (snd r) = Return (q r)) ->
  query_all p e (mk_St d ss)
  = (Return (map fst (filter q (join (contacts d) (users d)))), mk_St d ss).
Proof.
  intros Hp. unfold query_all. cbn [db].
  rewrite (where_all_pure q); [reflexivity|]. intros r _. apply Hp.
Qed.

(** Membership in the answer of a pure filter over the join. *)
Lemma in_query_answer (q : Contact.t -> bool) (U : User.t) (d : DB) (c : Contact.t) :
  In c (map fst (filter (fun r => q (fst r) && (User.id (snd r) =? User.id U))
                   (join (contacts d) (users d))))
  <-> owns d U c /\ registered d U /\ q c = true.
Proof.
  rewrite in_map_iff. split.
  - intros ([c' u] & Heq & Hin). simpl in Heq. subst c'.
    apply filter_In in Hin. destruct Hin as [Hin Hq]. simpl in Hq.
    apply andb_true_iff in Hq. destruct Hq as [Hq Hu]. apply Z.eqb_eq in Hu.
    apply in_join in Hin. destruct Hin as (Hc & Hus & Hfk).
    split; [split; [assumption|now rewrite Hfk, Hu]|].
    split; [now exists u|assumption].
  - intros ([Hc Hown] & (u & Hu & Hid) & Hq). exists (c, u). split; [reflexivity|].
    apply filter_In. split.
    + apply in_join. repeat split; try assumption. now rewrite Hid.
    + simpl. rewrite Hq, Hid, Z.eqb_refl. reflexivity.
Qed.

Lemma get_contacts_members (d : DB) (e : Env) (U : User.t) (ss : Session) :
  exists l,
    routes.get_contacts U e (mk_St d ss) = (Return l, mk_St d ss) /\
    (forall c, In c l <-> owns d U c /\ registered d U).
Proof.
  unfold routes.get_contacts, repository_contacts.get_contacts.
  rewrite (query_all_pure (fun r => true && (User.id (snd r) =? User.id U)));
    [|reflexivity].
  eexists. split; [reflexivity|].
  intros c. rewrite (in_query_answer (fun _ => true)). tauto.
Qed.

(** X1. [get_contacts] answers with the contacts that belong to the user,
    all of them and no others, provided the user has a row in [users]; for
    a user without one the answer is empty. The store is left as it was. *)
Theorem get_contacts_are_the_users (d : DB) (e : Env) (U : User.t) :
  exists l,
    run_request (routes.get_contacts U) e d = (Return l, d) /\
    (forall c, In c l <-> owns d U c /\ registered d U) /\
    (~ registered d U -> l = []).
Proof.
  destruct (get_contacts_members d e U fresh_session) as (l & Hrun & Hmem).
  exists l. split; [|split; [exact Hmem|]].
  - unfold run_request. now rewrite Hrun.
  - intros Hno. destruct l as [|c l]; [reflexivity|]. exfalso. apply Hno.
    apply (Hmem c). now left.
Qed.

Lemma one_user_per_id (k : Z) (us : list User.t) :
  NoDup (map User.id us) -> (exists u, In u us /\ User.id u = k) ->
  List.length (filter (fun u => User.id u =? k) us) = 1%nat.
Proof.
  intros Hnd (u & Hu & Hid). induction us as [|x xs IH]; simpl in *; [contradiction|].
  inversion Hnd as [|? ? Hnotin Hnd']; subst.
  destruct (Z.eqb_spec (User.id x) (User.id u)) as [Heq|Hne].
  - simpl. f_equal. rewrite (@filter_nothing _ _ xs); [reflexivity|].
    intros y Hy. apply Z.eqb_neq. intros Hyx. apply Hnotin.
    rewrite Heq, <- Hyx. now apply in_map.
  - destruct Hu as [->|Hu]; [congruence|]. now apply IH.
Qed.

Lemma join_one_contact (U : User.t) (us : list User.t) (c : Contact.t) :
  NoDup (map User.id us) -> (exists u, In u us /\ User.id u = User.id U) ->
  map fst (filter (fun r => true && (User.id (snd r) =? User.id U))
             (map (pair c)
                (filter (fun u => option_eqb Z.eqb (Contact.user_id c) (Some (User.id u)))
                   us)))
  = if owned_by U c then [c] else [].
Proof.
  intros Hnd Hreg. unfold owned_by.
  destruct (option_eqb Z.eqb (Contact.user_id c) (Some (User.id U))) eqn:Hown.
  - apply option_eqb_Z_eq in Hown.
    assert (Hsame : forall u, option_eqb Z.eqb (Contact.user_id c) (Some (User.id u))
                              = (User.id u =? User.id U)).
    { intros u. rewrite Hown. simpl. apply Z.eqb_sym. }
    rewrite (filter_ext _ _ Hsame).
    pose proof (@one_user_per_id (User.id U) us Hnd Hreg) as Hone.
    destruct (filter (fun u => User.id u =? User.id U) us) as [|u [|u' l]] eqn:Hf;
      try discriminate.
    assert (Hu : In u [u]) by now left.
    rewrite <- Hf in Hu. apply filter_In in Hu. destruct Hu as [_ Hu].
    simpl. now rewrite Hu.
  - induction us as [|u us IH]; simpl; [reflexivity|].
    inversion Hnd as [|? ? Hnotin Hnd']; subst.
    assert (Hrest : map fst (filter (fun r => true && (User.id (snd r) =? User.id U))
                      (map (pair c)
                         (filter (fun u0 => option_eqb Z.eqb (Contact.user_id c)
                                              (Some (User.id u0))) us))) = []).
    { clear IH Hreg Hnd Hnotin Hnd'. induction us as [|v vs IHv]; simpl; [reflexivity|].
      destruct (option_eqb Z.eqb (Contact.user_id c) (Some (User.id v))) eqn:Hv;
        [|exact IHv].
      simpl. destruct (Z.eqb_spec (User.id v) (User.id U)) as [Heq|Hne]; [|exact IHv].
      rewrite Heq in Hv. congruence. }
    destruct (option_eqb Z.eqb (Contact.user_id c) (Some (User.id u))) eqn:Hu;
      [|exact Hrest].
    simpl. destruct (Z.eqb_spec (User.id u) (User.id U)) as [Heq|Hne]; [|exact Hrest].
    rewrite Heq in Hu. congruence.
Qed.

Lemma get_contacts_filter (U : User.t) (d : DB) :
  users_ok d -> registered d U ->
  map fst (filter (fun r => true && (User.id (snd r) =? User.id U))
             (join (contacts d) (users d)))
  = filter (owned_by U) (contacts d).
Proof.
  intros Hnd Hreg. unfold join.
  induction (contacts d) as [|c cs IH]; [reflexivity|].
  cbn [flat_map filter]. rewrite filter_app, map_app, IH, (@join_one_contact U (users d) c Hnd Hreg).
  now destruct (owned_by U c).
Qed.

Lemma get_contacts_listing (d : DB) (e : Env) (U : User.t) :
  users_ok d -> registered d U ->
  run_request (repository_contacts.get_contacts U) e d
  = (Return (filter (owned_by U) (contacts d)), d).
Proof.
  intros Hnd Hreg.
  unfold run_request, repository_contacts.get_contacts.
  rewrite (query_all_pure (fun r => true && (User.id (snd r) =? User.id U)));
    [|reflexivity].
  cbn [db]. now rewrite get_contacts_filter.
Qed.

(** X2. With [users.id] a primary key and the user registered,
    [get_contacts] returns the rows of [contacts] whose [user_id] is the
    user's id, each once and in the order of the table; the route passes
    the list on as it is. *)
Theorem get_contacts_in_table_order (d : DB) (e : Env) (U : User.t) :
  users_ok d -> registered d U ->
  run_request (repository_contacts.get_contacts U) e d
    = (Return (filter (owned_by U) (contacts d)), d) /\
  run_request (routes.get_contacts U) e d
    = (Return (filter (owned_by U) (contacts d)), d).
Proof.
  intros Hnd Hreg. split; now apply get_contacts_listing.
Qed.

(* ================================================================== *)
(** ** Searching by name *)

Lemma lower_ascii_special (c : ascii) :
  Ascii.eqb (Sql.lower_ascii c) Sql.any_string = Ascii.eqb c Sql.any_string /\
  Ascii.eqb (Sql.lower_ascii c) Sql.any_char = Ascii.eqb c Sql.any_char.
Proof.
  destruct c as [[] [] [] [] [] [] [] []]; split; reflexivity.
Qed.

Lemma plain_lower (s : string) : plain (Sql.lower s) = plain s.
Proof.
  induction s as [|c s IH]; simpl; [reflexivity|].
  destruct (lower_ascii_special c) as [H1 H2].
  now rewrite lower_ascii_escape, H1, H2, IH.
Qed.

Lemma plain_escape_free (s : string) : plain s = true -> Sql.escape_free s = true.
Proof.
  induction s as [|c s IH]; simpl; [reflexivity|].
  rewrite !andb_true_iff. intros [[[H _] _] Hs]. split; [assumption|now apply IH].
Qed.

(** A pattern without special characters matches its own text only. *)
Lemma like_plain (p t : string) :
  plain p = true -> Sql.like p t = Some (String.eqb p t).
Proof.
  revert t. induction p as [|c p IH]; intros t Hp.
  - now destruct t.
  - simpl in Hp. rewrite !andb_true_iff, !negb_true_iff in Hp.
    destruct Hp as [[[He Hs] Ha] Hp].
    simpl. rewrite He, Hs, Ha.
    destruct t as [|x t]; [reflexivity|].
    rewrite (Ascii.eqb_sym c x).
    destruct (Ascii.eqb x c); [now apply IH|reflexivity].
Qed.

Lemma lower_append (a b : string) :
  Sql.lower (a ++ b) = (Sql.lower a ++ Sql.lower b)%string.
Proof. induction a as [|c a IH]; simpl; [reflexivity|]. now rewrite IH. Qed.

Lemma escape_free_append (a b : string) :
  Sql.escape_free (a ++ b) = Sql.escape_free a && Sql.escape_free b.
Proof.
  induction a as [|c a IH]; simpl; [reflexivity|]. now rewrite IH, andb_assoc.
Qed.

Lemma like_everything (t : string) : Sql.like "%" t = Some true.
Proof.
  induction t as [|x t IH]; [reflexivity|]. exact IH.
Qed.

(** A plain text followed by [%] matches the texts that start with it. *)
Lemma like_prefix (p t : string) :
  plain p = true ->
  (Sql.like (p ++ "%") t = Some true <-> exists rest, t = (p ++ rest)%string) /\
  Sql.like (p ++ "%") t <> None.
Proof.
  revert t. induction p as [|c p IH]; intros t Hp.
  - simpl. rewrite like_everything. split; [|discriminate].
    split; [intros _; now exists t|reflexivity].
  - simpl in Hp. rewrite !andb_true_iff, !negb_true_iff in Hp.
    destruct Hp as [[[He Hs] Ha] Hp].
    change (String c p ++ "%")%string with (String c (p ++ "%")).
    cbn [Sql.like]. rewrite He, Hs, Ha.
    destruct t as [|x t].
    + split; [|discriminate]. split; [discriminate|]. intros [r Hr]. discriminate.
    + destruct (Ascii.eqb_spec x c) as [->|Hne].
      * destruct (IH t Hp) as [Hiff Htot]. split; [|exact Htot].
        rewrite Hiff. split; intros [r Hr]; exists r.
        -- simpl. now rewrite Hr.
        -- simpl in Hr. now injection Hr.
      * split; [|discriminate]. split; [discriminate|].
        intros [r Hr]. simpl in Hr. injection Hr as Hx _. congruence.
Qed.

Lemma search_pure (field : Contact.t -> string) (text : string) (U : User.t) :
  Sql.escape_free text = true ->
  forall r : Contact.t * User.t,
    Sql.and_ (Sql.ilike (field (fst r)) text) (repository_contacts.same_user (snd r) U)
    = Return (like_b (Sql.lower text) (Sql.lower (field (fst r))) &&
              (User.id (snd r) =? User.id U)).
Proof.
  intros Hfree r. rewrite ilike_pure by assumption.
  unfold repository_contacts.same_user. apply and_pure.
Qed.

(** What a search by a field answers, for a text without the escape
    character. *)
Lemma name_search_members (field : Contact.t -> string) (text : string)
  (d : DB) (e : Env) (U : User.t) (ss : Session) :
  Sql.escape_free text = true ->
  exists l,
    query_all (fun c u => Sql.and_ (Sql.ilike (field c) text)
                            (repository_contacts.same_user u U)) e (mk_St d ss)
    = (Return l, mk_St d ss) /\
    (forall c, In c l <->
               owns d U c /\ registered d U /\
               like_b (Sql.lower text) (Sql.lower (field c)) = true).
Proof.
  intros Hfree.
  rewrite (@query_all_pure _ _ _ _ _ (@search_pure field _ U Hfree)).
  eexists. split; [reflexivity|]. intros c.
  now rewrite (in_query_answer (fun c => like_b (Sql.lower text) (Sql.lower (field c)))).
Qed.

(** X3. A search by first name or by last name with a text that holds
    none of the characters [%], [_] and backslash. Only contacts of the
    user are returned, and every contact of the user whose name equals the
    text up to the case of the letters A-Z is. For a text and a name
    written in ASCII the converse holds too: the name of a contact that is
    returned equals the text up to letter case, so a name that merely
    contains the text is not found. Nothing found is an empty list, not an
    error, and the store is left as it was. *)
Theorem search_by_name_is_equality_up_to_case
  (d : DB) (e : Env) (U : User.t) (text : string) :
  plain text = true ->
  exists byfirst bylast,
    run_request (routes.get_contact_by_firstname text U) e d = (Return byfirst, d) /\
    run_request (routes.get_contact_by_lastname text U) e d = (Return bylast, d) /\
    (forall c, In c byfirst \/ In c bylast -> owns d U c /\ registered d U) /\
    (forall c, owns d U c -> registered d U ->
               (Sql.lower (Contact.firstname c) = Sql.lower text -> In c byfirst) /\
               (Sql.lower (Contact.lastname c) = Sql.lower text -> In c bylast)) /\
    (ascii_only text = true ->
     forall c,
       (In c byfirst -> ascii_only (Contact.firstname c) = true ->
        Sql.lower (Contact.firstname c) = Sql.lower text) /\
       (In c bylast -> ascii_only (Contact.lastname c) = true ->
        Sql.lower (Contact.lastname c) = Sql.lower text)).
Proof.
  intros Hp. pose proof (@plain_escape_free text Hp) as Hfree.
  assert (Heq : forall s, like_b (Sql.lower text) (Sql.lower s) = true
                          <-> Sql.lower s = Sql.lower text).
  { intros s. unfold like_b. rewrite like_plain by now rewrite plain_lower.
    rewrite String.eqb_eq. split; congruence. }
  unfold run_request, routes.get_contact_by_firstname, routes.get_contact_by_lastname,
    repository_contacts.get_contact_by_firstname, repository_contacts.get_contact_by_lastname.
  rewrite (@query_all_pure _ _ _ _ _ (@search_pure Contact.firstname _ U Hfree)).
  rewrite (@query_all_pure _ _ _ _ _ (@search_pure Contact.lastname _ U Hfree)).
  do 2 eexists. split; [reflexivity|]. split; [reflexivity|].
  pose proof (fun c => in_query_answer
                (fun c => like_b (Sql.lower text) (Sql.lower (Contact.firstname c)))
                U d c) as Hfirst.
  pose proof (fun c => in_query_answer
                (fun c => like_b (Sql.lower text) (Sql.lower (Contact.lastname c)))
                U d c) as Hlast.
  cbv beta in Hfirst, Hlast.
  split; [|split].
  - intros c [Hin|Hin]; [apply Hfirst in Hin|apply Hlast in Hin]; tauto.
  - intros c Ho Hr. split; intros Hsame.
    + apply Hfirst. rewrite Heq. tauto.
    + apply Hlast. rewrite Heq. tauto.
  - intros _ c. split; intros Hin _.
    + apply Hfirst in Hin. apply Heq. tauto.
    + apply Hlast in Hin. apply Heq. tauto.
Qed.

(** X4. The text of a search is a LIKE pattern: a plain text followed by
    [%] finds every contact of the user whose first name starts with the
    text, up to the case of the letters A-Z, and only contacts of the
    user; for a text and a name written in ASCII, the name of a contact
    that is found starts with the text up to letter case. [%] alone finds
    all the contacts of the user. *)
Theorem search_with_percent_is_prefix_search
  (d : DB) (e : Env) (U : User.t) (text : string) :
  plain text = true ->
  exists found,
    run_request (routes.get_contact_by_firstname (text ++ "%") U) e d
      = (Return found, d) /\
    (forall c, In c found -> owns d U c /\ registered d U) /\
    (forall c, owns d U c -> registered d U ->
               (exists rest, Sql.lower (Contact.firstname c)
                             = (Sql.lower text ++ rest)%string) ->
               In c found) /\
    (ascii_only text = true ->
     forall c, In c found -> ascii_only (Contact.firstname c) = true ->
               exists rest, Sql.lower (Contact.firstname c)
                            = (Sql.lower text ++ rest)%string) /\
    (text = EmptyString -> forall c, In c found <-> owns d U c /\ registered d U).
Proof.
  intros Hp.
  assert (Hfree : Sql.escape_free (text ++ "%") = true).
  { rewrite escape_free_append, plain_escape_free by assumption. reflexivity. }
  assert (Heq : forall s, like_b (Sql.lower (text ++ "%")) (Sql.lower s) = true
                          <-> exists rest, Sql.lower s = (Sql.lower text ++ rest)%string).
  { intros s. unfold like_b. rewrite lower_append.
    change (Sql.lower "%") with "%".
    assert (Hpl : plain (Sql.lower text) = true) by now rewrite plain_lower.
    destruct (@like_prefix (Sql.lower text) (Sql.lower s) Hpl) as [Hiff Htot].
    rewrite <- Hiff. destruct (Sql.like _ _) as [[|]|]; split; congruence. }
  assert (Hin : forall c,
            In c (map fst (filter
                    (fun r => like_b (Sql.lower (text ++ "%"))
                                (Sql.lower (Contact.firstname (fst r))) &&
                              (User.id (snd r) =? User.id U))
                    (join (contacts d) (users d))))
            <-> owns d U c /\ registered d U /\
                exists rest, Sql.lower (Contact.firstname c)
                             = (Sql.lower text ++ rest)%string).
  { intros c.
    rewrite (in_query_answer
               (fun c => like_b (Sql.lower (text ++ "%"))
                           (Sql.lower (Contact.firstname c)))).
    now rewrite Heq. }
  unfold run_request, routes.get_contact_by_firstname,
    repository_contacts.get_contact_by_firstname.
  rewrite (@query_all_pure _ _ _ _ _ (@search_pure Contact.firstname _ U Hfree)).
  eexists. split; [reflexivity|]. split; [|split; [|split]].
  - intros c Hc. apply Hin in Hc. tauto.
  - intros c Ho Hr Hpre. apply Hin. tauto.
  - intros _ c Hc _. apply Hin in Hc. tauto.
  - intros -> c. rewrite Hin. simpl. split.
    + tauto.
    + intros [Ho Hr]. split; [assumption|]. split; [assumption|]. now eexists.
Qed.

(* ================================================================== *)
(** ** The duplicate check as a pattern match *)





(* ================================================================== *)
(** ** Remove and update: what else they leave alone *)

(** X7. When no contact with id [i] belongs to the user, [remove] returns
    nothing, the route answers 404 Not Found, and the store is what it
    was: no row is deleted and nothing is committed. *)
Theorem remove_missing_leaves_store (d : DB) (e : Env) (U : User.t) (i : Z) :
  (forall c, In c (contacts d) -> Contact.id c = i ->
             Contact.user_id c <> Some (User.id U)) ->
  run_request (repository_contacts.remove U i) e d = (Return None, d) /\
  (1 <= i -> run_request (routes.remove_contact i U) e d = (Raise routes.NotFound, d)) /\
  snd (run_request (routes.remove_contact i U) e d) = d.
Proof.
  intros Hno. apply lookup_owned_none in Hno.
  assert (Hroute : 1 <= i ->
            run_request (routes.remove_contact i U) e d = (Raise routes.NotFound, d)).
  { intros Hi. unfold run_request, routes.remove_contact.
    rewrite path_ge_ok by assumption. unfold bind. now rewrite remove_exec, Hno. }
  split; [|split; [exact Hroute|]].
  - unfold run_request. now rewrite remove_exec, Hno.
  - destruct (Z.leb_spec 1 i) as [Hi|Hi].
    + now rewrite Hroute.
    + unfold run_request, routes.remove_contact, bind, routes.Path_ge.
      apply Z.leb_gt in Hi. now rewrite Hi.
Qed.

Lemma filter_everything {A} (q : A -> bool) (l : list A) :
  (forall x, In x l -> q x = true) -> filter q l = l.
Proof.
  induction l as [|x l IH]; intros Hq; simpl; [reflexivity|].
  rewrite (Hq x (or_introl eq_refl)). f_equal. apply IH. intros y Hy. apply Hq. now right.
Qed.

Lemma filter_out_pk (cs : list Contact.t) (c : Contact.t) :
  NoDup (map Contact.id cs) -> In c cs ->
  (forall x, In x (filter (fun y => negb (Contact.id y =? Contact.id c)) cs)
             <-> In x cs /\ x <> c) /\
  S (List.length (filter (fun y => negb (Contact.id y =? Contact.id c)) cs))
  = List.length cs.
Proof.
  intros Hnd Hin. split.
  - intros x. rewrite filter_In, negb_true_iff, Z.eqb_neq. split.
    + intros [Hx Hne]. split; [assumption|]. intros ->. now apply Hne.
    + intros [Hx Hne]. split; [assumption|]. intros Hid. apply Hne.
      now apply (pk_unique cs).
  - induction cs as [|y ys IH]; simpl in *; [contradiction|].
    inversion Hnd as [|? ? Hnotin Hnd']; subst.
    destruct (Z.eqb_spec (Contact.id y) (Contact.id c)) as [Heq|Hne]; simpl.
    + f_equal. f_equal. apply filter_everything. intros x Hx.
      apply negb_true_iff, Z.eqb_neq. intros Hxc. apply Hnotin.
      rewrite Heq, <- Hxc. now apply in_map.
    + f_equal. destruct Hin as [->|Hin]; [congruence|]. now apply IH.
Qed.

(** X8. The remove route, for a contact the user owns, deletes that row
    and no other: the contacts afterwards are the ones before without it,
    one fewer; the users and the id sequence are untouched, and exactly one
    transaction is committed. *)
Theorem remove_deletes_one_row (d : DB) (e : Env) (U : User.t) (c : Contact.t) :
  store_ok d -> registered d U -> owns d U c ->
  exists d',
    run_request (routes.remove_contact (Contact.id c) U) e d = (Return c, d') /\
    (forall x, In x (contacts d') <-> In x (contacts d) /\ x <> c) /\
    S (List.length (contacts d')) = List.length (contacts d) /\
    users d' = users d /\ contacts_id_seq d' = contacts_id_seq d /\
    commit_count d' = S (commit_count d).
Proof.
  intros [Hpk Hseq Hstart] Hreg Hown.
  exists (reduced_store d (Contact.id c)).
  destruct (@filter_out_pk (contacts d) c Hpk (proj1 Hown)) as [Hmem Hlen].
  split; [|split; [exact Hmem|split; [exact Hlen|repeat split]]].
  unfold run_request, routes.remove_contact.
  rewrite path_ge_ok by (apply Hseq; apply Hown).
  unfold bind. rewrite remove_exec.
  now rewrite (@lookup_owned_complete d U c Hpk Hreg Hown).
Qed.

Lemma map_assign_all (t : datetime) (b : ContactModel.t) (cs : list Contact.t)
  (c : Contact.t) :
  NoDup (map Contact.id cs) -> In c cs ->
  map (assign_all t (Contact.id c) b) cs
  = map (fun x => if Contact.id x =? Contact.id c
                  then assign_all t (Contact.id c) b c else x) cs.
Proof.
  intros Hnd Hin. apply map_ext_in. intros x Hx.
  destruct (Z.eqb_spec (Contact.id x) (Contact.id c)) as [Heq|Hne].
  - now rewrite (@pk_unique cs x c Hnd Hx Hin Heq).
  - now apply assign_all_other.
Qed.

(** X9. [update], for a contact the user owns, rewrites that row and no
    other: the rows afterwards are the contact returned and every row of
    before that has another id, as it was, whoever owns it. There are as
    many rows as before; the users and the id sequence are untouched, and
    exactly one transaction is committed. Nothing is said of the order of
    the rows, which the database does not promise to keep. *)
Theorem update_rewrites_one_row
  (d : DB) (e : Env) (U : User.t) (c : Contact.t) (b : ContactModel.t) :
  store_ok d -> registered d U -> owns d U c ->
  exists c' d',
    run_request (repository_contacts.update U (Contact.id c) b) e d
      = (Return (Some c'), d') /\
    (forall x, In x (contacts d') <->
               x = c' \/ (In x (contacts d) /\ Contact.id x <> Contact.id c)) /\
    List.length (contacts d') = List.length (contacts d) /\
    users d' = users d /\ contacts_id_seq d' = contacts_id_seq d /\
    commit_count d' = S (commit_count d).
Proof.
  intros [Hpk Hseq Hstart] Hreg Hown.
  pose proof (@lookup_owned_complete d U c Hpk Hreg Hown) as Hl.
  set (c' := assign_all (now e) (Contact.id c) b c).
  exists c', (updated_store e d (Contact.id c) b).
  assert (Hmap : contacts (updated_store e d (Contact.id c) b)
                 = map (fun x => if Contact.id x =? Contact.id c then c' else x)
                     (contacts d)).
  { simpl. now apply map_assign_all; [|apply Hown]. }
  split; [|split; [|split; [|repeat split]]].
  - unfold run_request. rewrite update_exec, Hl. cbn zeta.
    unfold load. cbn [contacts updated_store].
    rewrite (@find_map_pk (assign_all (now e) (Contact.id c) b) _ c Hpk (proj1 Hown)).
    + reflexivity.
    + intros x. apply assign_all_id.
  - intros x. rewrite Hmap, in_map_iff. split.
    + intros (y & Hy & Hin).
      destruct (Z.eqb_spec (Contact.id y) (Contact.id c)) as [Heq|Hne].
      * left. now symmetry.
      * right. subst y. now split.
    + intros [->|[Hin Hne]].
      * exists c. rewrite Z.eqb_refl. split; [reflexivity|apply Hown].
      * exists x. split; [|assumption].
        destruct (Z.eqb_spec (Contact.id x) (Contact.id c)); [contradiction|reflexivity].
  - rewrite Hmap. apply length_map.
Qed.

(** X10. After an update of a contact the user owns, a get of the same id
    by the user, at any later time, returns the contact that the update
    returned. *)
Theorem update_then_get (d : DB) (e : Env) (U : User.t) (c : Contact.t) (b : ContactModel.t) :
  store_ok d -> registered d U -> owns d U c ->
  exists c' d',
    run_request (routes.update_contact b (Contact.id c) U) e d = (Return c', d') /\
    has_fields c' b /\
    forall e', run_request (routes.get_contact (Contact.id c) U) e' d' = (Return c', d').
Proof.
  intros Hok Hreg Hown. pose proof Hok as [Hpk Hseq Hstart].
  pose proof (@lookup_owned_complete d U c Hpk Hreg Hown) as Hl.
  pose proof (assign_all_self (now e) b c) as (Hf & Hu & _).
  set (c' := assign_all (now e) (Contact.id c) b c) in *.
  set (d' := updated_store e d (Contact.id c) b).
  assert (Hge : 1 <= Contact.id c) by (apply Hseq; apply Hown).
  assert (Hin' : In c' (contacts d')) by (simpl; apply in_map; apply Hown).
  assert (Hid : Contact.id c' = Contact.id c) by apply assign_all_id.
  assert (Hok' : store_ok d') by now apply store_ok_update.
  assert (Hown' : owns d' U c').
  { split; [assumption|]. rewrite Hu. apply Hown. }
  exists c', d'. split; [|split; [exact Hf|]].
  - unfold run_request, routes.update_contact. rewrite path_ge_ok by assumption.
    unfold bind. rewrite update_exec, Hl. cbn zeta. unfold load.
    cbn [contacts updated_store d'].
    rewrite (@find_map_pk (assign_all (now e) (Contact.id c) b) _ c Hpk (proj1 Hown)).
    + reflexivity.
    + intros x. apply assign_all_id.
  - intros e'. unfold run_request, routes.get_contact.
    rewrite path_ge_ok by assumption. unfold bind.
    rewrite get_contact_by_id_run, <- Hid.
    now rewrite (@lookup_owned_complete d' U c' (pk_contacts Hok') Hreg Hown').
Qed.

(** X11. An update that is repeated with the same body changes no row:
    the second one returns the contact the first one returned, with the
    [updated_at] the first one set, whatever the clock says by then; only
    the count of committed transactions goes up. *)
Theorem update_twice_changes_nothing
  (d : DB) (e e2 : Env) (U : User.t) (c : Contact.t) (b : ContactModel.t) :
  store_ok d -> registered d U -> owns d U c ->
  exists c' d' d'',
    run_request (repository_contacts.update U (Contact.id c) b) e d
      = (Return (Some c'), d') /\
    run_request (repository_contacts.update U (Contact.id c) b) e2 d'
      = (Return (Some c'), d'') /\
    contacts d'' = contacts d' /\
    commit_count d'' = S (commit_count d').
Proof.
  intros Hok Hreg Hown. pose proof Hok as [Hpk Hseq Hstart].
  pose proof (@lookup_owned_complete d U c Hpk Hreg Hown) as Hl.
  pose proof (assign_all_self (now e) b c) as (Hf & Hu & _).
  set (c' := assign_all (now e) (Contact.id c) b c) in *.
  set (d' := updated_store e d (Contact.id c) b).
  assert (Hid : Contact.id c' = Contact.id c) by apply assign_all_id.
  assert (Hok' : store_ok d') by now apply store_ok_update.
  assert (Hown' : owns d' U c').
  { split; [simpl; apply in_map; apply Hown|]. rewrite Hu. apply Hown. }
  pose proof (@lookup_owned_complete d' U c' (pk_contacts Hok') Hreg Hown') as Hl'.
  rewrite Hid in Hl'.
  assert (Hsame : map (assign_all (now e2) (Contact.id c') b) (contacts d') = contacts d').
  { rewrite <- (map_id (contacts d')) at 2. apply map_ext_in. intros x Hx.
    destruct (Z.eq_dec (Contact.id x) (Contact.id c')) as [Heq|Hne].
    - rewrite (@pk_unique (contacts d') x c' (pk_contacts Hok') Hx (proj1 Hown') Heq).
      now apply assign_all_no_change.
    - now apply assign_all_other. }
  assert (Hfind : forall cs, cs = contacts d' ->
            find (fun x => Contact.id x =? Contact.id c') cs = Some c').
  { intros cs ->. rewrite <- (map_id (contacts d')).
    rewrite (@find_map_pk (fun x => x) _ c' (pk_contacts Hok') (proj1 Hown'));
      [reflexivity|reflexivity]. }
  exists c', d', (updated_store e2 d' (Contact.id c') b).
  split; [|split; [|split; [exact Hsame|reflexivity]]].
  - unfold run_request. rewrite update_exec, Hl. cbn zeta. unfold load.
    cbn [contacts updated_store d'].
    rewrite (@find_map_pk (assign_all (now e) (Contact.id c) b) _ c Hpk (proj1 Hown)).
    + reflexivity.
    + intros x. apply assign_all_id.
  - unfold run_request. rewrite update_exec, Hl'. cbn zeta. unfold load.
    cbn [contacts updated_store]. rewrite Hsame.
    rewrite (Hfind _ eq_refl). reflexivity.
Qed.

(* ================================================================== *)
(** ** Create: keys, the foreign key, and the invariant of the store *)

(** X12. [create] by a registered user appends one row and touches no
    other: the new contact gets the next value of the id sequence, which is
    greater than the id of every contact stored before; the table
    afterwards is the table before followed by the new contact; the
    sequence advances by one and one transaction is committed. *)
Theorem create_appends_with_fresh_id
  (d : DB) (e : Env) (U : User.t) (b : ContactModel.t) :
  store_ok d -> registered d U ->
  exists c d',
    run_request (repository_contacts.create U b) e d = (Return c, d') /\
    Contact.id c = contacts_id_seq d /\
    (forall x, In x (contacts d) -> Contact.id x < Contact.id c) /\
    contacts d' = (contacts d ++ [c])%list /\
    users d' = users d /\
    contacts_id_seq d' = contacts_id_seq d + 1 /\
    commit_count d' = S (commit_count d).
Proof.
  intros Hok Hreg. pose proof Hok as [Hpk Hseq Hstart].
  exists (new_row e d U b), (extended_store e d U b).
  split; [|split; [reflexivity|split; [|repeat split]]].
  - unfold run_request. now rewrite create_succeeds.
  - intros x Hx. apply Hseq in Hx. simpl. lia.
Qed.

Lemma query_first_state (p : Contact.t -> User.t -> outcome bool) (e : Env) (s : St) :
  snd (query_first p e s) = s.
Proof. reflexivity. Qed.

(** X13. The foreign key of [contacts.user_id]: for a user without a row
    in [users], [create] raises [IntegrityError]; no contact is stored, the
    users are untouched and nothing is committed. The same holds for the
    route, whose duplicate check finds nothing for such a user. *)
Theorem create_for_unregistered_user_fails
  (d : DB) (e : Env) (U : User.t) (b : ContactModel.t) :
  ~ registered d U ->
  exists d',
    run_request (repository_contacts.create U b) e d = (Raise IntegrityError, d') /\
    (Sql.escape_free (ContactModel.email b) = true ->
     run_request (routes.create_contact b U) e d = (Raise IntegrityError, d')) /\
    contacts d' = contacts d /\ users d' = users d /\
    commit_count d' = commit_count d.
Proof.
  intros Hno.
  assert (Hfk : fk_user_ok (users d) (Some (User.id U)) = false).
  { destruct (fk_user_ok (users d) (Some (User.id U))) eqn:H; [|reflexivity].
    exfalso. apply Hno. now apply registered_fk. }
  exists (mk_DB (users d) (contacts d) (contacts_id_seq d + 1) (commit_count d)).
  split; [|split; [|repeat split]].
  - unfold run_request. now rewrite create_exec, Hfk.
  - intros Hfree. unfold run_request, routes.create_contact, bind.
    rewrite get_contact_by_email_run by assumption.
    destruct (find _ _) as [[c u]|] eqn:Hf.
    + exfalso. apply find_some in Hf. destruct Hf as [Hin Hq].
      apply in_join in Hin. destruct Hin as (_ & Hu & _).
      unfold by_email_of in Hq. cbn [fst snd] in Hq.
      apply andb_true_iff in Hq. destruct Hq as [_ Hsame]. apply Z.eqb_eq in Hsame.
      apply Hno. now exists u.
    + cbn [option_map]. now rewrite create_exec, Hfk.
Qed.

Lemma store_ok_sequence_advanced (d : DB) :
  store_ok d ->
  store_ok (mk_DB (users d) (contacts d) (contacts_id_seq d + 1) (commit_count d)).
Proof.
  intros [Hpk Hseq Hstart]. split; simpl.
  - assumption.
  - intros c Hc. apply Hseq in Hc. lia.
  - lia.
Qed.

(** X14. The three writing routes keep the constraints of the schema on
    [contacts]: whatever the arguments and whether the request succeeds or
    raises, afterwards the ids are still pairwise distinct, at least 1 and
    below the next value of the sequence. *)
Theorem routes_keep_the_store_ok
  (d : DB) (e : Env) (U : User.t) (b : ContactModel.t) (i : Z) :
  store_ok d ->
  store_ok (snd (run_request (routes.create_contact b U) e d)) /\
  store_ok (snd (run_request (routes.update_contact b i U) e d)) /\
  store_ok (snd (run_request (routes.remove_contact i U) e d)).
Proof.
  intros Hok. split; [|split].
  - unfold run_request, routes.create_contact, bind.
    pose proof (query_first_state
                  (fun c u => Sql.and_ (Sql.ilike (Contact.email c) (ContactModel.email b))
                                (repository_contacts.same_user u U))
                  e (mk_St d fresh_session)) as Hst.
    unfold repository_contacts.get_contact_by_email.
    destruct (query_first _ e (mk_St d fresh_session)) as [[[c|]|x] s]; simpl in Hst; subst s.
    + exact Hok.
    + rewrite create_exec.
      destruct (fk_user_ok _ _); cbn [db snd].
      * now apply store_ok_create.
      * now apply store_ok_sequence_advanced.
    + exact Hok.
  - unfold run_request, routes.update_contact, bind, routes.Path_ge.
    destruct (1 <=? i); [|exact Hok]. cbn [ret].
    rewrite update_exec.
    destruct (lookup_owned d U i) as [c|]; [|exact Hok].
    cbn zeta. destruct (load _ _); cbn [db snd]; now apply store_ok_update.
  - unfold run_request, routes.remove_contact, bind, routes.Path_ge.
    destruct (1 <=? i); [|exact Hok]. cbn [ret].
    rewrite remove_exec.
    destruct (lookup_owned d U i) as [c|]; [|exact Hok].
    cbn [db snd]. now apply store_ok_remove.
Qed.

(** X15. Removing a contact right after creating it gives back the table
    of before: the same rows in the same order. The id is not given again:
    the sequence stays advanced, and two transactions were committed. *)
Theorem create_then_remove_restores_the_table
  (d : DB) (e e' : Env) (U : User.t) (b : ContactModel.t) :
  store_ok d -> registered d U ->
  exists c d' d'',
    run_request (repository_contacts.create U b) e d = (Return c, d') /\
    run_request (repository_contacts.remove U (Contact.id c)) e' d'
      = (Return (Some c), d'') /\
    contacts d'' = contacts d /\
    contacts_id_seq d'' = contacts_id_seq d + 1 /\
    commit_count d'' = S (S (commit_count d)).
Proof.
  intros Hok Hreg. pose proof Hok as [Hpk Hseq Hstart].
  set (c := new_row e d U b). set (d' := extended_store e d U b).
  pose proof (store_ok_create e U b Hok) as Hok'.
  assert (Hown : owns d' U c).
  { split; [|reflexivity]. simpl. apply in_or_app. right. now left. }
  exists c, d', (reduced_store d' (Contact.id c)).
  split; [|split; [|split; [|split; reflexivity]]].
  - unfold run_request. now rewrite create_succeeds.
  - unfold run_request. rewrite remove_exec.
    now rewrite (@lookup_owned_complete d' U c (pk_contacts Hok') Hreg Hown).
  - simpl. rewrite filter_app. simpl. rewrite Z.eqb_refl. simpl.
    rewrite app_nil_r. apply filter_everything.
    intros x Hx. apply negb_true_iff, Z.eqb_neq. apply Hseq in Hx. lia.
Qed.

(** X16. After a create, the list of the user's contacts is the list of
    before followed by the new contact. *)
Theorem create_then_list (d : DB) (e e' : Env) (U : User.t) (b : ContactModel.t) :
  store_ok d -> users_ok d -> registered d U ->
  exists c d' before,
    run_request (repository_contacts.create U b) e d = (Return c, d') /\
    run_request (repository_contacts.get_contacts U) e' d = (Return before, d) /\
    run_request (repository_contacts.get_contacts U) e' d' = (Return (before ++ [c])%list, d').
Proof.
  intros Hok Hus Hreg.
  exists (new_row e d U b), (extended_store e d U b), (filter (owned_by U) (contacts d)).
  split; [|split].
  - unfold run_request. now rewrite create_succeeds.
  - now apply get_contacts_listing.
  - rewrite get_contacts_listing by assumption.
    cbn [contacts extended_store]. rewrite filter_app. cbn [filter].
    unfold owned_by at 2. cbn [Contact.user_id new_row insert_row t_user_id].
    cbn [option_eqb]. now rewrite Z.eqb_refl.
Qed.

(* ================================================================== *)
(** ** Birthdays: the days to the next one, and the week ahead *)

Lemma le_total_us (a b : datetime) :
  valid a = true -> valid b = true -> le a b = true -> total_us a <= total_us b.
Proof.
  intros Ha Hb. unfold le. rewrite (cmp_total_us a b Ha Hb).
  destruct (Z.compare_spec (total_us a) (total_us b)); intros; try discriminate; lia.
Qed.

(** At one instant the three readings give what the function of the
    requests computes. *)
Lemma days_to_next_birthday_at_once (c : Contact.t) (t : datetime) :
  days_to_next_birthday_at c t t t = next_birthday_days (Contact.birthday c) t.
Proof.
  unfold days_to_next_birthday_at, next_birthday_days.
  destruct (replace_year _ _) as [nb|x]; [|reflexivity].
  destruct (lt nb t); reflexivity.
Qed.

(** X17. The clock is read three times and moves in between. With
    readings in order that lie within one day, whatever
    [days_to_next_birthday] yields is a number from -1 to 365. It is
    negative only when this year's birthday falls between the second and
    the third reading, or the year changes between the first and the
    last; and in the first case it is -1 indeed. For a birthday other than
    29 February, before the year 9999, a number is yielded. With the
    three readings at one instant this is the function the requests
    evaluate, which leaves the store as it was. *)
Theorem days_to_next_birthday_in_range (c : Contact.t) (t1 t2 t3 : datetime) :
  valid (Contact.birthday c) = true ->
  valid t1 = true -> valid t2 = true -> valid t3 = true ->
  le t1 t2 = true -> le t2 t3 = true ->
  total_us t3 - total_us t1 <= US_PER_DAY ->
  (forall n, days_to_next_birthday_at c t1 t2 t3 = Return n ->
     -1 <= n <= 365 /\
     (n < 0 ->
      year t1 < year t3 \/
      exists nb, replace_year (Contact.birthday c) (year t1) = Return nb /\
                 lt nb t2 = false /\ lt nb t3 = true)) /\
  (forall nb, replace_year (Contact.birthday c) (year t1) = Return nb ->
     lt nb t2 = false -> lt nb t3 = true ->
     days_to_next_birthday_at c t1 t2 t3 = Return (-1)) /\
  (~ (month (Contact.birthday c) = 2 /\ day (Contact.birthday c) = 29) ->
   year t1 < 9999 ->
   exists n, days_to_next_birthday_at c t1 t2 t3 = Return n) /\
  (forall e d, run_request (days_to_next_birthday c) e d
               = (days_to_next_birthday_at c (today e) (today e) (today e), d)).
Proof.
  intros Hb H1 H2 H3 H12 H23 Hday.
  set (b := Contact.birthday c) in *.
  pose proof (@le_total_us t1 t2 H1 H2 H12) as L12.
  pose proof (@le_total_us t2 t3 H2 H3 H23) as L23.
  pose proof (toordinal_year_range t1 H1) as Ho1.
  pose proof (toordinal_year_range t3 H3) as Ho3.
  pose proof (time_us_range t1 H1) as Ht1.
  pose proof (time_us_range t3 H3) as Ht3.
  pose proof (days_before_year_step (year t1)) as Hstep.
  split; [|split; [|split]].
  - intros n. unfold days_to_next_birthday_at. fold b.
    unfold replace_year, datetime_new.
    destruct (check_date_fields (year t1) (month b) (day b) &&
              check_time_fields (hour b) (minute b) (second b) (microsecond b)) eqn:Hnb;
      [|discriminate].
    set (nb := mk_datetime (year t1) (month b) (day b) (hour b) (minute b) (second b)
                 (microsecond b)) in *.
    assert (Hvnb : valid nb = true) by exact Hnb.
    pose proof (lt_total_us nb t2 Hvnb H2) as [Hlt Hge].
    pose proof (lt_total_us nb t3 Hvnb H3) as [_ Hge3].
    pose proof (toordinal_year_range nb Hvnb) as Honb.
    pose proof (time_us_range nb Hvnb) as Htnb.
    change (year nb) with (year t1) in *.
    destruct (lt nb t2) eqn:Hcmp.
    + cbn [year month day nb].
      destruct (check_date_fields (year t1 + 1) (month b) (day b) &&
                check_time_fields 0 0 0 0) eqn:Hnb'; [|discriminate].
      set (nb' := mk_datetime (year t1 + 1) (month b) (day b) 0 0 0 0) in *.
      assert (Hvnb' : valid nb' = true) by exact Hnb'.
      pose proof (toordinal_year_range nb' Hvnb') as Honb'.
      change (year nb') with (year t1 + 1) in *.
      pose proof (day_of_year_next (year t1) (month b) (day b)) as Hnext.
      specialize (Hlt eq_refl).
      intros H. injection H as <-.
      unfold sub_days.
      assert (Hdiff : - US_PER_DAY < total_us nb' - total_us t3 < 366 * US_PER_DAY).
      { unfold total_us, toordinal, ymd2ord, day_of_year in *.
        cbn [year month day nb nb'] in *.
        change (time_us nb') with 0. unfold US_PER_DAY in *.
        destruct (is_leap (year t1)); lia. }
      split; [unfold US_PER_DAY in *; Z.div_mod_to_equations; lia|].
      intros Hneg. left.
      destruct (Z_lt_le_dec (year t1) (year t3)) as [Hy|Hy]; [assumption|exfalso].
      pose proof (@days_before_year_mono (year t3 + 1) (year t1 + 1) ltac:(lia)) as Hm.
      assert (Hpos : 0 <= total_us nb' - total_us t3).
      { unfold total_us in *. change (time_us nb') with 0.
        unfold US_PER_DAY in *. lia. }
      unfold US_PER_DAY in *. Z.div_mod_to_equations; lia.
    + specialize (Hge eq_refl).
      intros H. injection H as <-.
      unfold sub_days.
      assert (Hdiff : - US_PER_DAY <= total_us nb - total_us t3 < 366 * US_PER_DAY).
      { unfold total_us in *. unfold US_PER_DAY in *.
        destruct (is_leap (year t1)); lia. }
      split; [unfold US_PER_DAY in *; Z.div_mod_to_equations; lia|].
      intros Hneg. right. exists nb. split; [reflexivity|]. split; [exact Hcmp|].
      destruct (lt nb t3); [reflexivity|exfalso].
      specialize (Hge3 eq_refl).
      unfold US_PER_DAY in *. Z.div_mod_to_equations; lia.
  - intros nb Hnb Hcmp2 Hcmp3.
    unfold days_to_next_birthday_at. fold b. rewrite Hnb, Hcmp2.
    assert (Hvnb : valid nb = true).
    { unfold replace_year, datetime_new in Hnb.
      destruct (check_date_fields _ _ _ && check_time_fields _ _ _ _) eqn:Hv;
        [|discriminate].
      injection Hnb as <-. exact Hv. }
    pose proof (lt_total_us nb t2 Hvnb H2) as [_ Hge].
    pose proof (lt_total_us nb t3 Hvnb H3) as [Hlt3 _].
    specialize (Hge Hcmp2). specialize (Hlt3 Hcmp3).
    f_equal. unfold sub_days.
    unfold US_PER_DAY in *. Z.div_mod_to_equations; lia.
  - intros Hno Hy.
    pose proof (valid_bounds b Hb) as (Hyb & Hmb & Hdb & Hhb & Hmib & Hsb & Husb).
    pose proof (valid_bounds t1 H1) as (Hyt & _).
    assert (Hdate : forall y, 1 <= y <= 9999 ->
                              check_date_fields y (month b) (day b) = true).
    { intros y Hyr. unfold check_date_fields, MINYEAR, MAXYEAR.
      pose proof (@days_in_month_other_year (year b) y (month b) (day b) (proj2 Hdb) Hno).
      rewrite !andb_true_iff, !Z.leb_le. lia. }
    assert (Htime : check_time_fields (hour b) (minute b) (second b) (microsecond b) = true).
    { unfold check_time_fields. rewrite !andb_true_iff, !Z.leb_le. lia. }
    unfold days_to_next_birthday_at, replace_year, datetime_new. fold b.
    rewrite (Hdate (year t1)), Htime by lia. cbn [andb year month day].
    destruct (lt _ t2); [|eexists; reflexivity].
    rewrite (Hdate (year t1 + 1)) by lia. cbn. eexists; reflexivity.
  - intros e d. unfold run_request. rewrite days_to_next_birthday_run. cbn [db].
    now rewrite days_to_next_birthday_at_once.
Qed.

(** X18. For a contact born on 29 February the function returns only in
    a leap year and only until that day, at the time of day of the
    birthday, has passed; in every other year, and in a leap year from then
    on, it raises [ValueError]. *)
Theorem leap_day_birthday_mostly_raises (c : Contact.t) (e : Env) (d : DB) :
  valid (Contact.birthday c) = true -> valid (today e) = true ->
  month (Contact.birthday c) = 2 -> day (Contact.birthday c) = 29 ->
  let b := Contact.birthday c in
  let this_year := mk_datetime (year (today e)) 2 29 (hour b) (minute b) (second b)
                     (microsecond b) in
  (is_leap (year (today e)) = false \/ lt this_year (today e) = true ->
   run_request (days_to_next_birthday c) e d = (Raise ValueError, d)) /\
  (is_leap (year (today e)) = true -> lt this_year (today e) = false ->
   exists n, run_request (days_to_next_birthday c) e d = (Return n, d) /\ 0 <= n <= 365).
Proof.
  intros Hb Ht Hm Hd. cbv zeta.
  unfold run_request. rewrite days_to_next_birthday_run. cbn [db].
  set (b := Contact.birthday c) in *.
  set (this_year := mk_datetime (year (today e)) 2 29 (hour b) (minute b) (second b)
                      (microsecond b)).
  pose proof (valid_bounds b Hb) as (_ & _ & _ & Hh & Hmi & Hs & Hus).
  pose proof (valid_bounds (today e) Ht) as (Hy & _).
  assert (Htime : check_time_fields (hour b) (minute b) (second b) (microsecond b) = true).
  { unfold check_time_fields. rewrite !andb_true_iff, !Z.leb_le. lia. }
  assert (Hleap : is_leap (year (today e)) = true ->
            next_birthday_days b (today e)
            = if lt this_year (today e)
              then Raise ValueError
              else Return (sub_days this_year (today e))).
  { intros Hl. unfold next_birthday_days, replace_year, datetime_new.
    rewrite Hm, Hd, Htime.
    assert (Hdate : check_date_fields (year (today e)) 2 29 = true).
    { unfold check_date_fields, days_in_month, MINYEAR, MAXYEAR. rewrite Hl.
      cbn [Z.eqb Pos.eqb andb]. rewrite !andb_true_iff, !Z.leb_le. lia. }
    rewrite Hdate. cbn [andb]. fold this_year.
    destruct (lt this_year (today e)); [|reflexivity].
    cbn [year month day this_year].
    unfold check_date_fields, days_in_month.
    rewrite (leap_years_apart _ Hl). cbn [Z.eqb Pos.eqb andb DAYS_IN_MONTH].
    change (29 <=? 28) with false. now rewrite andb_false_r. }
  split.
  - intros [Hl|Hlt].
    + now rewrite (@next_birthday_days_feb_29 b (today e) Hm Hd Hl).
    + destruct (is_leap (year (today e))) eqn:Hl.
      * rewrite (Hleap eq_refl), Hlt. reflexivity.
      * now rewrite (@next_birthday_days_feb_29 b (today e) Hm Hd Hl).
  - intros Hl Hge. exists (sub_days this_year (today e)).
    rewrite (Hleap Hl), Hge. split; [reflexivity|].
    apply (@next_birthday_days_range b (today e)); try assumption.
    now rewrite (Hleap Hl), Hge.
Qed.

Lemma day_of_year_next_ge (y m d : Z) :
  day_of_year y m d <= day_of_year (y + 1) m d + (if is_leap y then 1 else 0).
Proof.
  unfold day_of_year, days_before_month.
  destruct (2 <? m), (is_leap y), (is_leap (y + 1)); simpl; lia.
Qed.

(** X19. On the day of the birthday itself the answer is not 0: once the
    clock is past the time of day stored with the birthday (midnight, for a
    birthday given as a date), the next birthday is taken to be the one of
    next year, and the function returns 364 or 365. *)
Theorem on_the_birthday_a_year_is_left (c : Contact.t) (e : Env) (d : DB) :
  valid (Contact.birthday c) = true -> valid (today e) = true ->
  month (Contact.birthday c) = month (today e) ->
  day (Contact.birthday c) = day (today e) ->
  time_us (Contact.birthday c) < time_us (today e) ->
  year (today e) < 9999 ->
  ~ (month (Contact.birthday c) = 2 /\ day (Contact.birthday c) = 29) ->
  exists n, run_request (days_to_next_birthday c) e d = (Return n, d) /\
            (n = 364 \/ n = 365).
Proof.
  intros Hb Ht Hm Hd Htime Hy Hno.
  unfold run_request. rewrite days_to_next_birthday_run. cbn [db].
  set (b := Contact.birthday c) in *. set (t := today e) in *.
  destruct (@next_birthday_days_total b t Hb Ht Hno Hy) as (n & Hn & _).
  exists n. split; [now rewrite Hn|].
  revert Hn. unfold next_birthday_days, replace_year, datetime_new.
  destruct (check_date_fields (year t) (month b) (day b) &&
            check_time_fields (hour b) (minute b) (second b) (microsecond b)) eqn:Hnb;
    [|discriminate].
  set (nb := mk_datetime (year t) (month b) (day b) (hour b) (minute b) (second b)
               (microsecond b)) in *.
  assert (Hvnb : valid nb = true) by exact Hnb.
  pose proof (lt_total_us nb t Hvnb Ht) as [_ Hge].
  pose proof (time_us_range t Ht) as Htt.
  pose proof (time_us_range b Hb) as Htb.
  assert (Hord : toordinal nb = toordinal t).
  { unfold toordinal. cbn [year month day nb]. now rewrite Hm, Hd. }
  destruct (lt nb t).
  - cbn [year month day nb].
    destruct (check_date_fields (year t + 1) (month b) (day b) &&
              check_time_fields 0 0 0 0); [|discriminate].
    intros H. injection H as <-.
    pose proof (day_of_year_next (year t) (month t) (day t)) as Hle.
    pose proof (day_of_year_next_ge (year t) (month t) (day t)) as Hge'.
    pose proof (days_before_year_step (year t)) as Hstep.
    unfold sub_days, total_us, toordinal, ymd2ord, day_of_year in *.
    cbn [year month day] in *. change (time_us (mk_datetime _ _ _ 0 0 0 0)) with 0.
    rewrite Hm, Hd. unfold US_PER_DAY in *.
    destruct (is_leap (year t)); Z.div_mod_to_equations; lia.
  - exfalso. specialize (Hge eq_refl). unfold total_us in Hge.
    rewrite Hord in Hge. change (time_us nb) with (time_us b) in Hge. lia.
Qed.

Lemma valid_date_ok (t : datetime) : valid t = true -> date_ok t.
Proof. intros H. apply valid_bounds in H. split; apply H. Qed.

Lemma toordinal_in_its_year (t : datetime) :
  date_ok t ->
  days_before_year (year t) + 1 <= toordinal t <= days_before_year (year t + 1).
Proof.
  intros [Hm Hd].
  pose proof (day_of_year_range (year t) Hm Hd) as Hr.
  unfold toordinal, ymd2ord. unfold day_of_year in Hr.
  rewrite days_before_year_step. lia.
Qed.

(** The year of a date is the one its ordinal falls in. *)
Lemma year_of_ordinal (t : datetime) (y : Z) :
  date_ok t ->
  days_before_year y + 1 <= toordinal t <= days_before_year (y + 1) ->
  year t = y.
Proof.
  intros Hok Hr. pose proof (toordinal_in_its_year Hok) as Ht.
  destruct (Z.lt_trichotomy (year t) y) as [Hlt|[Heq|Hgt]]; [|assumption|].
  - pose proof (@days_before_year_mono (year t + 1) y ltac:(lia)). lia.
  - pose proof (@days_before_year_mono (y + 1) (year t) ltac:(lia)). lia.
Qed.

(** Within one year the order of month and day is the order of the days. *)
Lemma md_le_ordinal (a b : datetime) :
  date_ok a -> date_ok b -> year a = year b ->
  (md_le a b = true <-> toordinal a <= toordinal b).
Proof.
  intros [Hma Hda] [Hmb Hdb] Hy. unfold md_le, toordinal, ymd2ord.
  rewrite Hy in *.
  rewrite orb_true_iff, andb_true_iff, Z.ltb_lt, Z.eqb_eq, Z.leb_le.
  destruct (Z.lt_trichotomy (month a) (month b)) as [Hlt|[Heq|Hgt]].
  - pose proof (day_of_year_lex (year b) Hma Hda Hmb Hdb Hlt) as H.
    unfold day_of_year in H. lia.
  - rewrite Heq in *. lia.
  - pose proof (day_of_year_lex (year b) Hmb Hdb Hma Hda Hgt) as H.
    unfold day_of_year in H. lia.
Qed.

(** Up to 24 December the week ahead ends within the year. *)
Lemma week_within_year (t : datetime) :
  date_ok t -> ~ (month t = 12 /\ 25 <= day t) ->
  toordinal t + 7 <= days_before_year (year t + 1).
Proof.
  intros [Hm Hd] Hno. rewrite days_before_year_step.
  unfold toordinal, ymd2ord, days_before_month, days_in_month in *.
  set (m := month t) in *. clearbody m.
  month_cases m; destruct (is_leap (year t)); calendar; lia.
Qed.

Lemma add_days_defined (t : datetime) (n : nat) :
  toordinal t + Z.of_nat n <= MAXORDINAL ->
  add_days t n = Return (Nat.iter n next_day t).
Proof. intros H. unfold add_days. apply Z.leb_le in H. now rewrite H. Qed.

(** X20. Outside the last week of December the query of the week ahead
    misses no birthday: a contact of the user whose birthday has the month
    and day of today plus [k] days, for any [k] from 0 to 7, is in the
    answer. So a birthday today and one exactly seven days out are
    included. *)
Theorem next_week_birthday_is_found
  (d : DB) (e : Env) (U : User.t) (c : Contact.t) (k : nat) (tk : datetime) :
  valid (today e) = true ->
  ~ (month (today e) = 12 /\ 25 <= day (today e)) ->
  registered d U -> owns d U c ->
  (k <= 7)%nat -> add_days (today e) k = Return tk ->
  month (Contact.birthday c) = month tk -> day (Contact.birthday c) = day tk ->
  exists found,
    run_request (routes.get_contacts' U) e d = (Return found, d) /\ In c found.
Proof.
  intros Hv Hno (u & Hu & Hid) [Hc Hown] Hk Hadd Hm Hd.
  pose proof (valid_date_ok _ Hv) as Hok.
  pose proof (valid_bounds _ Hv) as (Hy & _).
  pose proof (week_within_year Hok Hno) as Hweek.
  pose proof (@days_before_year_mono (year (today e) + 1) 10000 ltac:(lia)) as Hmax.
  change (days_before_year 10000) with MAXORDINAL in Hmax.
  pose proof (toordinal_in_its_year Hok) as Hin.
  set (nw := Nat.iter 7 next_day (today e)).
  assert (Hnw : add_days (today e) 7 = Return nw).
  { apply add_days_defined. change (Z.of_nat 7) with 7. lia. }
  destruct (toordinal_add_days 7 Hok Hnw) as [Hordw Hokw].
  destruct (toordinal_add_days k Hok Hadd) as [Hordk Hokk].
  change (Z.of_nat 7) with 7 in Hordw.
  assert (Hyk : year tk = year (today e)) by (apply year_of_ordinal; [assumption|lia]).
  assert (Hyw : year nw = year (today e)) by (apply year_of_ordinal; [assumption|lia]).
  set (b := Contact.birthday c) in *.
  assert (Hlo : md_le (today e) b = true).
  { unfold md_le. rewrite Hm, Hd.
    apply (@md_le_ordinal (today e) tk); try assumption; [congruence|lia]. }
  assert (Hhi : md_le b nw = true).
  { unfold md_le. rewrite Hm, Hd.
    apply (@md_le_ordinal tk nw); try assumption; [congruence|lia]. }
  assert (Hrange : md_in_range b).
  { unfold md_in_range. rewrite Hm, Hd. now apply date_ok_md_in_range. }
  pose proof (date_ok_md_in_range Hok) as Hrt.
  pose proof (date_ok_md_in_range Hokw) as Hrw.
  unfold run_request, routes.get_contacts',
    repository_contacts.get_next_week_birthday_contacts, bind, datetime_today, lift,
    query_all.
  rewrite Hnw. cbn [db].
  rewrite (where_all_pure
             (fun r : Contact.t * User.t =>
                String.leb (to_char_MM_DD (today e)) (to_char_MM_DD (Contact.birthday (fst r)))
                && (String.leb (to_char_MM_DD (Contact.birthday (fst r))) (to_char_MM_DD nw)
                    && (User.id (snd r) =? User.id U)))).
  - eexists. split; [reflexivity|].
    apply in_map_iff. exists (c, u). split; [reflexivity|].
    apply filter_In. split.
    + apply in_join. repeat split; try assumption. now rewrite Hid.
    + cbn [fst snd]. fold b. rewrite !to_char_leb by assumption.
      now rewrite Hlo, Hhi, Hid, Z.eqb_refl.
  - intros r _. unfold repository_contacts.same_user. now rewrite !and_pure.
Qed.

(** X21. With birthdays that are dates of the calendar, the answer of the
    week ahead is exactly this: the contacts of the user whose month and
    day are, in calendar order, not before those of today and not after
    those of today plus seven days. *)
Theorem next_week_birthdays_are_a_calendar_window
  (d : DB) (e : Env) (U : User.t) (next_week : datetime) :
  valid (today e) = true ->
  add_days (today e) 7 = Return next_week ->
  (forall c, In c (contacts d) -> md_in_range (Contact.birthday c)) ->
  exists found,
    run_request (routes.get_contacts' U) e d = (Return found, d) /\
    forall c, In c found <->
              owns d U c /\ registered d U /\
              md_le (today e) (Contact.birthday c) = true /\
              md_le (Contact.birthday c) next_week = true.
Proof.
  intros Hv Hadd Hbd.
  unfold routes.get_contacts'.
  rewrite (@next_week_birthday_contacts_run d e U next_week Hv Hadd Hbd).
  eexists. split; [reflexivity|]. intros c.
  assert (Hext : forall r : Contact.t * User.t,
            in_window_of U (today e) next_week r
            = (md_le (today e) (Contact.birthday (fst r)) &&
               md_le (Contact.birthday (fst r)) next_week) &&
              (User.id (snd r) =? User.id U)).
  { intros r. unfold in_window_of. now rewrite andb_assoc. }
  rewrite (filter_ext _ _ Hext).
  rewrite (in_query_answer
             (fun c => md_le (today e) (Contact.birthday c) &&
                       md_le (Contact.birthday c) next_week)).
  rewrite andb_true_iff. tauto.
Qed.

(* ================================================================== *)
(** ** Requests and responses *)

(** X22. The id in the path is bounded below: for an id less than 1 the
    get, update and remove routes raise the validation error of the
    request without looking at the store, which is left as it was, rather
    than answering 404. *)
Theorem ids_below_one_are_refused
  (d : DB) (e : Env) (U : User.t) (b : ContactModel.t) (i : Z) :
  i < 1 ->
  run_request (routes.get_contact i U) e d = (Raise RequestValidationError, d) /\
  run_request (routes.update_contact b i U) e d = (Raise RequestValidationError, d) /\
  run_request (routes.remove_contact i U) e d = (Raise RequestValidationError, d).
Proof.
  intros Hi. apply Z.leb_gt in Hi.
  unfold run_request, routes.get_contact, routes.update_contact, routes.remove_contact,
    bind, routes.Path_ge.
  rewrite Hi. repeat split.
Qed.

Lemma from_orm_run (c : Contact.t) (e : Env) (s : St) :
  from_orm c e s =
  (match next_birthday_days (Contact.birthday c) (today e) with
   | Return days =>
       Return (ContactResponse.mk (Contact.id c) (Contact.firstname c) (Contact.lastname c)
                 (Contact.birthday c) (Contact.phone c) (Contact.email c) (Contact.notes c)
                 days (Contact.created_at c) (Contact.updated_at c))
   | Raise x => Raise x
   end, s).
Proof.
  unfold from_orm, bind. rewrite days_to_next_birthday_run.
  destruct (next_birthday_days _ _); reflexivity.
Qed.

(** X23. The response of a get for a contact that was created through the
    API, whose birthday is not 29 February: it carries the six fields of
    the body, the id taken from the sequence, and the time of the creation
    as both [created_at] and [updated_at]. Building the response writes
    nothing to the store. *)
Theorem get_response_carries_the_row
  (d : DB) (e e' : Env) (U : User.t) (b : ContactModel.t) :
  store_ok d -> registered d U ->
  valid (ContactModel.birthday b) = true -> valid (today e') = true ->
  ~ (month (ContactModel.birthday b) = 2 /\ day (ContactModel.birthday b) = 29) ->
  year (today e') < 9999 ->
  exists c d' r,
    run_request (repository_contacts.create U b) e d = (Return c, d') /\
    run_request (response_model (routes.get_contact (Contact.id c) U)) e' d'
      = (Return r, d') /\
    ContactResponse.id r = contacts_id_seq d /\
    ContactResponse.firstname r = ContactModel.firstname b /\
    ContactResponse.lastname r = ContactModel.lastname b /\
    ContactResponse.birthday r = ContactModel.birthday b /\
    ContactResponse.phone r = ContactModel.phone b /\
    ContactResponse.email r = ContactModel.email b /\
    ContactResponse.notes r = Some (ContactModel.notes b) /\
    ContactResponse.created_at r = Some (now e) /\
    ContactResponse.updated_at r = Some (now e).
Proof.
  intros Hok Hreg Hb Ht Hno Hy.
  set (c := new_row e d U b). set (d' := extended_store e d U b).
  assert (Hok' : store_ok d') by now apply store_ok_create.
  assert (Hown' : owns d' U c).
  { split; [|reflexivity]. cbn [contacts d' extended_store]. apply in_or_app.
    right. now left. }
  assert (Hreg' : registered d' U) by exact Hreg.
  destruct (@next_birthday_days_total (Contact.birthday c) (today e') Hb Ht Hno Hy)
    as (n & Hn & _).
  exists c, d'. eexists. split; [|split].
  - unfold run_request. now rewrite create_succeeds.
  - unfold run_request, response_model, routes.get_contact.
    unfold bind at 1.
    rewrite path_ge_ok by (apply (pk_sequence Hok'); apply Hown').
    unfold bind. rewrite get_contact_by_id_run.
    rewrite (@lookup_owned_complete d' U c (pk_contacts Hok') Hreg' Hown'). cbn [ret].
    rewrite from_orm_run, Hn. reflexivity.
  - cbn. repeat split; reflexivity.
Qed.

Lemma for_each_from_orm_raises (l : list Contact.t) (c : Contact.t) (e : Env) (s : St) :
  In c l ->
  next_birthday_days (Contact.birthday c) (today e) = Raise ValueError ->
  for_each from_orm l e s = (Raise ValueError, s).
Proof.
  intros Hin Hc. induction l as [|x l IH]; [contradiction|].
  cbn [for_each]. unfold bind at 1. rewrite from_orm_run.
  destruct (next_birthday_days (Contact.birthday x) (today e)) as [n|err] eqn:Hx.
  - destruct Hin as [->|Hin]; [congruence|].
    unfold bind at 1. rewrite (IH Hin). reflexivity.
  - f_equal. f_equal.
    revert Hx. unfold next_birthday_days, replace_year, datetime_new.
    repeat match goal with
           | |- context [if ?g then _ else _] => destruct g
           end; congruence.
Qed.

(** X24. One contact born on 29 February breaks the list: in a year that
    is not a leap year, if the user owns such a contact, the response of
    the list route raises [ValueError] as a whole, whatever the other
    contacts are, and so does the response of a search by first name that
    finds that contact. *)
Theorem leap_day_contact_breaks_the_list
  (d : DB) (e : Env) (U : User.t) (c : Contact.t) :
  registered d U -> owns d U c ->
  month (Contact.birthday c) = 2 -> day (Contact.birthday c) = 29 ->
  is_leap (year (today e)) = false ->
  run_request (response_model_list (routes.get_contacts U)) e d = (Raise ValueError, d) /\
  (plain (Contact.firstname c) = true ->
   run_request (response_model_list
                  (routes.get_contact_by_firstname (Contact.firstname c) U)) e d
   = (Raise ValueError, d)).
Proof.
  intros Hreg Hown Hm Hd Hleap.
  pose proof (@next_birthday_days_feb_29 (Contact.birthday c) (today e) Hm Hd Hleap) as Hc.
  split.
  - destruct (get_contacts_members d e U fresh_session) as (l & Hrun & Hmem).
    unfold run_request, response_model_list, bind. rewrite Hrun.
    rewrite (@for_each_from_orm_raises l c e (mk_St d fresh_session));
      [reflexivity| |assumption].
    apply Hmem. now split.
  - intros Hp.
    destruct (@name_search_members Contact.firstname (Contact.firstname c) d e U
                fresh_session (@plain_escape_free _ Hp)) as (l & Hrun & Hmem).
    unfold run_request, response_model_list, bind,
      routes.get_contact_by_firstname, repository_contacts.get_contact_by_firstname.
    rewrite Hrun.
    rewrite (@for_each_from_orm_raises l c e (mk_St d fresh_session));
      [reflexivity| |assumption].
    apply Hmem. split; [assumption|]. split; [assumption|].
    unfold like_b. rewrite like_plain by now rewrite plain_lower.
    now rewrite String.eqb_refl.
Qed.

(* ================================================================== *)
(** ** The health check *)

(** X25. [healthchecker] has two answers only. It returns the welcome
    message when the query gives a row. In every other case, an exception
    of the driver or no row, it raises 500 with the detail of the handler:
    the exception that the body raises for no row is caught by the
    handler of the same function, so its own detail never gets out. *)
Theorem healthchecker_has_two_answers (fetchone : M (option Z)) (e : Env) (s : St) :
  (forall row s', fetchone e s = (Return (Some row), s') ->
     healthchecker fetchone e s = (Return [("message", "Welcome to FastAPI!")], s')) /\
  (forall s', fetchone e s = (Return None, s') ->
     healthchecker fetchone e s
     = (Raise (HTTPException 500 "Error connecting to the database"), s')) /\
  (forall x s', fetchone e s = (Raise x, s') ->
     healthchecker fetchone e s
     = (Raise (HTTPException 500 "Error connecting to the database"), s')) /\
  fst (healthchecker fetchone e s)
  <> Raise (HTTPException 500 "Database is not configured correctly").
Proof.
  unfold healthchecker, try_except, bind, raise, ret.
  destruct (fetchone e s) as [[[row|]|x] s'] eqn:Hf; cbn [fst];
    repeat apply conj; intros; try discriminate; congruence.
Qed.

(* ================================================================== *)
(** ** The migration *)

Lemma existsb_false_filter {A} (q : A -> bool) (l : list A) :
  existsb q l = false -> filter (fun x => negb (q x)) l = l.
Proof.
  induction l as [|x l IH]; simpl; [reflexivity|].
  intros H. apply orb_false_iff in H. destruct H as [Hx Hl].
  rewrite Hx. simpl. f_equal. now apply IH.
Qed.

Lemma existsb_false_find {A} (q : A -> bool) (l : list A) :
  existsb q l = false -> find q l = None.
Proof.
  induction l as [|x l IH]; simpl; [reflexivity|].
  intros H. apply orb_false_iff in H. destruct H as [Hx Hl].
  rewrite Hx. now apply IH.
Qed.

Lemma find_append {A} (q : A -> bool) (l1 l2 : list A) :
  find q (l1 ++ l2) = match find q l1 with Some x => Some x | None => find q l2 end.
Proof.
  induction l1 as [|x l1 IH]; simpl; [reflexivity|]. now destruct (q x).
Qed.

(** X26. The migration undoes itself. On a schema that has none of its
    tables and indexes, [upgrade] succeeds and creates the two tables and
    the two indexes, after which [downgrade] succeeds and gives back the
    schema of before: it drops [contacts] before [users], so the foreign
    key does not stand in the way. Applied out of turn both are refused:
    [upgrade] on the upgraded schema and [downgrade] on the untouched one. *)
Theorem upgrade_then_downgrade (s : Migration.Schema) :
  Migration.untouched s ->
  exists s1,
    Migration.upgrade s = Migration.Done s1 /\
    Migration.tables s1
      = (Migration.tables s ++ [Migration.users_table; Migration.contacts_table])%list /\
    Migration.downgrade s1 = Migration.Done s /\
    (exists w, Migration.upgrade s1 = Migration.ProgrammingError w) /\
    (exists w, Migration.downgrade s = Migration.ProgrammingError w).
Proof.
  destruct s as [ts ixs].
  unfold Migration.untouched, Migration.has_table, Migration.has_index.
  cbn [Migration.tables Migration.indexes].
  intros (Hu & Hc & Hie & Hii & Hrefs & Hix).
  assert (Hnoref : existsb
            (fun t => negb (String.eqb (Migration.tbl_name t) "contacts") &&
                      existsb (String.eqb "contacts") (Migration.references t))
            ts = false).
  { apply not_true_is_false. intros H. apply existsb_exists in H.
    destruct H as (t & Ht & Hq). apply andb_true_iff in Hq.
    destruct (Hrefs t Ht) as [_ Hr]. rewrite Hr in Hq. now destruct Hq. }
  assert (Hnoref' : existsb
            (fun t => negb (String.eqb (Migration.tbl_name t) "users") &&
                      existsb (String.eqb "users") (Migration.references t))
            ts = false).
  { apply not_true_is_false. intros H. apply existsb_exists in H.
    destruct H as (t & Ht & Hq). apply andb_true_iff in Hq.
    destruct (Hrefs t Ht) as [Hr _]. rewrite Hr in Hq. now destruct Hq. }
  assert (Hixs : forall n, (n = "users" \/ n = "contacts") ->
            filter (fun i => negb (String.eqb (Migration.ix_table i) n)) ixs = ixs).
  { intros n Hn. apply filter_everything. intros i Hi.
    destruct (Hix i Hi) as [H1 H2]. destruct Hn as [-> | ->].
    - now rewrite H1.
    - now rewrite H2. }
  set (U := Migration.users_table). set (C := Migration.contacts_table).
  set (ie := Migration.mk_Index "ix_contacts_email" "contacts" ["email"] false).
  set (ii := Migration.mk_Index "ix_contacts_id" "contacts" ["id"] false).
  set (T1 := ((ts ++ [U]) ++ [C])%list).
  assert (HfindC : find (fun t => String.eqb (Migration.tbl_name t) "contacts") T1 = Some C).
  { unfold T1. rewrite !find_append, (existsb_false_find _ _ Hc). reflexivity. }
  assert (A : Migration.create_table U (Migration.mk_Schema ts ixs)
              = Migration.Done (Migration.mk_Schema (ts ++ [U]) ixs)).
  { unfold Migration.create_table, Migration.has_table.
    cbn [Migration.tables Migration.indexes]. change (Migration.tbl_name U) with "users".
    rewrite Hu. reflexivity. }
  assert (B : Migration.create_table C (Migration.mk_Schema (ts ++ [U]) ixs)
              = Migration.Done (Migration.mk_Schema T1 ixs)).
  { unfold Migration.create_table, Migration.has_table.
    cbn [Migration.tables Migration.indexes]. change (Migration.tbl_name C) with "contacts".
    change (Migration.references C) with ["users"]. cbn [forallb].
    rewrite !existsb_app, Hc, Hu. reflexivity. }
  assert (Cx : Migration.create_index "ix_contacts_email" "contacts" ["email"] false
                 (Migration.mk_Schema T1 ixs)
               = Migration.Done (Migration.mk_Schema T1 (ixs ++ [ie]))).
  { unfold Migration.create_index, Migration.has_index.
    cbn [Migration.tables Migration.indexes]. rewrite Hie, HfindC. reflexivity. }
  assert (D : Migration.create_index "ix_contacts_id" "contacts" ["id"] false
                (Migration.mk_Schema T1 (ixs ++ [ie]))
              = Migration.Done (Migration.mk_Schema T1 ((ixs ++ [ie]) ++ [ii]))).
  { unfold Migration.create_index, Migration.has_index.
    cbn [Migration.tables Migration.indexes].
    rewrite existsb_app, Hii, HfindC. reflexivity. }
  assert (E : Migration.drop_index "ix_contacts_id" "contacts"
                (Migration.mk_Schema T1 ((ixs ++ [ie]) ++ [ii]))
              = Migration.Done (Migration.mk_Schema T1 (ixs ++ [ie]))).
  { unfold Migration.drop_index, Migration.has_index.
    cbn [Migration.tables Migration.indexes].
    rewrite !existsb_app, !filter_app, (existsb_false_filter _ _ Hii), Hii.
    cbn. now rewrite app_nil_r. }
  assert (F : Migration.drop_index "ix_contacts_email" "contacts"
                (Migration.mk_Schema T1 (ixs ++ [ie]))
              = Migration.Done (Migration.mk_Schema T1 ixs)).
  { unfold Migration.drop_index, Migration.has_index.
    cbn [Migration.tables Migration.indexes].
    rewrite !existsb_app, !filter_app, (existsb_false_filter _ _ Hie), Hie.
    cbn. now rewrite app_nil_r. }
  assert (G : Migration.drop_table "contacts" (Migration.mk_Schema T1 ixs)
              = Migration.Done (Migration.mk_Schema (ts ++ [U]) ixs)).
  { unfold Migration.drop_table, Migration.has_table.
    cbn [Migration.tables Migration.indexes]. unfold T1.
    rewrite !existsb_app, Hnoref, Hc.
    rewrite !filter_app, (existsb_false_filter _ _ Hc), (Hixs "contacts") by now right.
    cbn. now rewrite app_nil_r. }
  assert (H : Migration.drop_table "users" (Migration.mk_Schema (ts ++ [U]) ixs)
              = Migration.Done (Migration.mk_Schema ts ixs)).
  { unfold Migration.drop_table, Migration.has_table.
    cbn [Migration.tables Migration.indexes].
    rewrite !existsb_app, Hnoref', Hu.
    rewrite !filter_app, (existsb_false_filter _ _ Hu), (Hixs "users") by now left.
    cbn. now rewrite app_nil_r. }
  exists (Migration.mk_Schema T1 ((ixs ++ [ie]) ++ [ii])).
  split; [|split; [|split; [|split]]].
  - unfold Migration.upgrade. fold U C. rewrite A. cbn [Migration.andThen].
    rewrite B. cbn [Migration.andThen]. rewrite Cx. cbn [Migration.andThen]. exact D.
  - cbn [Migration.tables]. unfold T1. now rewrite <- app_assoc.
  - unfold Migration.downgrade. rewrite E. cbn [Migration.andThen].
    rewrite F. cbn [Migration.andThen]. rewrite G. cbn [Migration.andThen]. exact H.
  - eexists. unfold Migration.upgrade, Migration.create_table, Migration.has_table.
    fold U. cbn [Migration.tables]. change (Migration.tbl_name U) with "users".
    unfold T1. rewrite !existsb_app. cbn [existsb]. change (Migration.tbl_name U) with "users".
    replace (String.eqb "users" "users") with true by reflexivity.
    rewrite !orb_true_r. reflexivity.
  - eexists. unfold Migration.downgrade, Migration.drop_index, Migration.has_index.
    cbn [Migration.indexes]. rewrite Hii. reflexivity.
Qed.

(* ================================================================== *)
(** ** What update does not check, and how the days are counted *)

(** X27. The update route has no duplicate check: a contact can be given
    the e-mail address of another contact of the same user. The request
    succeeds, and afterwards the user owns two different contacts with
    that address. *)
Theorem update_can_duplicate_an_address
  (d : DB) (e : Env) (U : User.t) (c other : Contact.t) (b : ContactModel.t) :
  store_ok d -> registered d U -> owns d U c -> owns d U other ->
  other <> c -> Contact.email other = ContactModel.email b ->
  exists c' d',
    run_request (routes.update_contact b (Contact.id c) U) e d = (Return c', d') /\
    owns d' U c' /\ owns d' U other /\ c' <> other /\
    Contact.email c' = Contact.email other.
Proof.
  intros Hok Hreg Hown Hother Hne Hmail. pose proof Hok as [Hpk Hseq Hstart].
  pose proof (@lookup_owned_complete d U c Hpk Hreg Hown) as Hl.
  pose proof (assign_all_self (now e) b c) as (Hf & Hu & _).
  set (c' := assign_all (now e) (Contact.id c) b c) in *.
  assert (Hid : Contact.id c' = Contact.id c) by apply assign_all_id.
  assert (Hids : Contact.id other <> Contact.id c).
  { intros H. apply Hne. now apply (pk_unique (contacts d)); [|apply Hother|apply Hown|]. }
  exists c', (updated_store e d (Contact.id c) b).
  split; [|split; [|split; [|split]]].
  - unfold run_request, routes.update_contact.
    rewrite path_ge_ok by (apply Hseq; apply Hown).
    unfold bind. rewrite update_exec, Hl. cbn zeta. unfold load.
    cbn [contacts updated_store].
    rewrite (@find_map_pk (assign_all (now e) (Contact.id c) b) _ c Hpk (proj1 Hown)).
    + reflexivity.
    + intros x. apply assign_all_id.
  - split; [simpl; apply in_map; apply Hown|]. rewrite Hu. apply Hown.
  - split; [|apply Hother]. simpl. apply in_map_iff. exists other.
    split; [now apply assign_all_other|apply Hother].
  - intros Heq. apply Hids. now rewrite <- Heq.
  - destruct Hf as (_ & _ & Hem & _). now rewrite Hem.
Qed.

(** X28. For a birthday stored as a date (time of day 00:00:00) that is
    still ahead in the current year, the function counts one day less than
    the calendar says, whenever the clock is not at midnight sharp: a
    birthday tomorrow gives 0, one in a week gives 6. *)
Theorem days_are_one_less_than_the_calendar (c : Contact.t) (e : Env) (d : DB) :
  let b := Contact.birthday c in
  let t := today e in
  valid b = true -> valid t = true ->
  time_us b = 0 -> 0 < time_us t ->
  check_date_fields (year t) (month b) (day b) = true ->
  toordinal t < ymd2ord (year t) (month b) (day b) ->
  run_request (days_to_next_birthday c) e d
  = (Return (ymd2ord (year t) (month b) (day b) - toordinal t - 1), d).
Proof.
  cbv zeta. intros Hb Ht Hmid Hnow Hdate Hahead.
  unfold run_request. rewrite days_to_next_birthday_run. cbn [db].
  set (b := Contact.birthday c) in *. set (t := today e) in *.
  pose proof (valid_bounds b Hb) as (_ & _ & _ & Hh & Hmi & Hs & Hus).
  assert (Htime : check_time_fields (hour b) (minute b) (second b) (microsecond b) = true).
  { unfold check_time_fields. rewrite !andb_true_iff, !Z.leb_le. lia. }
  unfold next_birthday_days, replace_year, datetime_new.
  rewrite Hdate, Htime. cbn [andb].
  set (nb := mk_datetime (year t) (month b) (day b) (hour b) (minute b) (second b)
               (microsecond b)).
  assert (Hvnb : valid nb = true).
  { unfold valid. cbn [year month day hour minute second microsecond nb].
    now rewrite Hdate, Htime. }
  pose proof (lt_total_us nb t Hvnb Ht) as [Hlt _].
  pose proof (time_us_range t Ht) as Htt.
  assert (Htot : total_us nb = ymd2ord (year t) (month b) (day b) * US_PER_DAY).
  { unfold total_us, toordinal. cbn [year month day nb].
    change (time_us nb) with (time_us b). lia. }
  destruct (lt nb t).
  - exfalso. specialize (Hlt eq_refl). rewrite Htot in Hlt.
    unfold total_us, US_PER_DAY in *. lia.
  - f_equal. f_equal. unfold sub_days. rewrite Htot.
    unfold total_us, US_PER_DAY in *. Z.div_mod_to_equations; lia.
Qed.

(* ================================================================== *)
(** ** The further statements at the sample stores *)

Lemma sample_users_ok : users_ok Sample.store.
Proof. unfold users_ok. simpl. repeat constructor; simpl; intuition discriminate. Qed.

Lemma sample2_store_ok : store_ok Sample2.store.
Proof.
  split.
  - simpl. repeat constructor; simpl; intuition discriminate.
  - intros c [<-|[<-|[<-|[<-|[<-|[]]]]]]; simpl; lia.
  - simpl. lia.
Qed.

Lemma sample2_alice_registered : registered Sample2.store Sample.alice.
Proof. exists Sample.alice. split; [now left|reflexivity]. Qed.

Lemma sample2_alice_owns_leap : owns Sample2.store Sample.alice Sample2.leap.
Proof. split; [right; right; now left|reflexivity]. Qed.

Lemma sample2_alice_owns_june : owns Sample2.store Sample.alice Sample2.june.
Proof. split; [right; right; right; now left|reflexivity]. Qed.

Lemma sample2_alice_owns_week : owns Sample2.store Sample.alice Sample2.week.
Proof. split; [do 4 right; now left|reflexivity]. Qed.

Lemma sample_stranger_unregistered : ~ registered Sample.store Sample2.stranger.
Proof. intros (u & [<-|[<-|[]]] & H); discriminate. Qed.

Lemma sample2_birthdays_in_range :
  forall c, In c (contacts Sample2.store) -> md_in_range (Contact.birthday c).
Proof.
  intros c [<-|[<-|[<-|[<-|[<-|[]]]]]]; unfold md_in_range; simpl; lia.
Qed.

Lemma not_leap_day (m d : Z) : (m =? 2) && (d =? 29) = false -> ~ (m = 2 /\ d = 29).
Proof.
  intros H [-> ->]. discriminate.
Qed.

Lemma sample_schema_untouched : Migration.untouched Sample2.empty_schema.
Proof.
  unfold Migration.untouched. do 4 (split; [reflexivity|]). split; intros ? [].
Qed.

Lemma get_contacts_in_table_order_witness :
  run_request (repository_contacts.get_contacts Sample.alice) Sample.clock Sample.store
  = (Return [Sample.taras], Sample.store).
Proof.
  exact (proj1 (@get_contacts_in_table_order Sample.store Sample.clock Sample.alice
                  sample_users_ok sample_alice_registered)).
Defined.

Lemma search_by_name_is_equality_up_to_case_witness :
  exists byfirst,
    run_request (routes.get_contact_by_firstname "TARAS" Sample.alice)
      Sample.clock Sample.store = (Return byfirst, Sample.store) /\
    In Sample.taras byfirst.
Proof.
  destruct (@search_by_name_is_equality_up_to_case Sample.store Sample.clock Sample.alice
              "TARAS" eq_refl) as (byfirst & bylast & Hrun & _ & _ & Hmem & _).
  exists byfirst. split; [exact Hrun|].
  now apply (Hmem Sample.taras sample_alice_owns_taras sample_alice_registered).
Defined.

Lemma search_with_percent_is_prefix_search_witness :
  exists found,
    run_request (routes.get_contact_by_firstname "ta%" Sample.alice)
      Sample.clock Sample.store = (Return found, Sample.store) /\
    In Sample.taras found.
Proof.
  destruct (@search_with_percent_is_prefix_search Sample.store Sample.clock Sample.alice
              "ta" eq_refl) as (found & Hrun & _ & Hmem & _).
  exists found. split; [exact Hrun|].
  apply (Hmem Sample.taras sample_alice_owns_taras sample_alice_registered).
  exists "ras". reflexivity.
Defined.



Lemma remove_missing_leaves_store_witness :
  run_request (repository_contacts.remove Sample.bob 1) Sample.clock Sample.store
  = (Return None, Sample.store).
Proof.
  exact (proj1 (@remove_missing_leaves_store Sample.store Sample.clock Sample.bob 1
                  sample_bob_has_no_1)).
Defined.

Lemma remove_deletes_one_row_witness :
  exists d',
    run_request (routes.remove_contact 1 Sample.alice) Sample.clock Sample.store
      = (Return Sample.taras, d') /\
    In Sample.lesya (contacts d') /\ List.length (contacts d') = 1%nat.
Proof.
  destruct (@remove_deletes_one_row Sample.store Sample.clock Sample.alice Sample.taras
              sample_store_ok sample_alice_registered sample_alice_owns_taras)
    as (d' & Hrun & Hmem & Hlen & _).
  exists d'. split; [exact Hrun|]. split.
  - apply Hmem. split; [right; now left|discriminate].
  - simpl in Hlen. now injection Hlen.
Defined.

Lemma update_rewrites_one_row_witness :
  exists c' d',
    run_request (repository_contacts.update Sample.alice 1 Sample.body)
      Sample.clock Sample.store = (Return (Some c'), d') /\
    In c' (contacts d') /\ In Sample.lesya (contacts d').
Proof.
  destruct (@update_rewrites_one_row Sample.store Sample.clock Sample.alice Sample.taras
              Sample.body sample_store_ok sample_alice_registered sample_alice_owns_taras)
    as (c' & d' & Hrun & Hrows & _).
  exists c', d'. split; [exact Hrun|]. split.
  - apply Hrows. now left.
  - apply Hrows. right. split; [right; left; reflexivity|discriminate].
Defined.

Lemma update_then_get_witness :
  exists c' d',
    run_request (routes.update_contact Sample.body 1 Sample.alice)
      Sample.clock Sample.store = (Return c', d') /\
    run_request (routes.get_contact 1 Sample.alice) Sample.year_end d' = (Return c', d').
Proof.
  destruct (@update_then_get Sample.store Sample.clock Sample.alice Sample.taras
              Sample.body sample_store_ok sample_alice_registered sample_alice_owns_taras)
    as (c' & d' & Hrun & _ & Hget).
  exists c', d'. split; [exact Hrun|exact (Hget Sample.year_end)].
Defined.

Lemma update_twice_changes_nothing_witness :
  exists c' d' d'',
    run_request (repository_contacts.update Sample.alice 1 Sample.body)
      Sample.clock Sample.store = (Return (Some c'), d') /\
    run_request (repository_contacts.update Sample.alice 1 Sample.body)
      Sample.year_end d' = (Return (Some c'), d'') /\
    contacts d'' = contacts d'.
Proof.
  destruct (@update_twice_changes_nothing Sample.store Sample.clock Sample.year_end
              Sample.alice Sample.taras Sample.body sample_store_ok
              sample_alice_registered sample_alice_owns_taras)
    as (c' & d' & d'' & H1 & H2 & Hsame & _).
  exists c', d', d''. split; [exact H1|]. split; [exact H2|exact Hsame].
Defined.

Lemma create_appends_with_fresh_id_witness :
  exists c d',
    run_request (repository_contacts.create Sample.alice Sample.body)
      Sample.clock Sample.store = (Return c, d') /\
    Contact.id c = 3 /\
    contacts d' = [Sample.taras; Sample.lesya; c].
Proof.
  destruct (@create_appends_with_fresh_id Sample.store Sample.clock Sample.alice
              Sample.body sample_store_ok sample_alice_registered)
    as (c & d' & Hrun & Hid & _ & Happ & _).
  exists c, d'. split; [exact Hrun|]. split; [exact Hid|exact Happ].
Defined.

Lemma create_for_unregistered_user_fails_witness :
  exists d',
    run_request (routes.create_contact Sample.body Sample2.stranger)
      Sample.clock Sample.store = (Raise IntegrityError, d') /\
    contacts d' = contacts Sample.store.
Proof.
  destruct (@create_for_unregistered_user_fails Sample.store Sample.clock Sample2.stranger
              Sample.body sample_stranger_unregistered)
    as (d' & _ & Hroute & Hsame & _).
  exists d'. split; [exact (Hroute eq_refl)|exact Hsame].
Defined.

Lemma routes_keep_the_store_ok_witness :
  store_ok (snd (run_request (routes.create_contact Sample.body Sample.alice)
                   Sample.clock Sample.store)).
Proof.
  exact (proj1 (@routes_keep_the_store_ok Sample.store Sample.clock Sample.alice
                  Sample.body 1 sample_store_ok)).
Defined.

Lemma create_then_remove_restores_the_table_witness :
  exists c d' d'',
    run_request (repository_contacts.create Sample.alice Sample.body)
      Sample.clock Sample.store = (Return c, d') /\
    run_request (repository_contacts.remove Sample.alice (Contact.id c))
      Sample.year_end d' = (Return (Some c), d'') /\
    contacts d'' = contacts Sample.store.
Proof.
  destruct (@create_then_remove_restores_the_table Sample.store Sample.clock
              Sample.year_end Sample.alice Sample.body sample_store_ok
              sample_alice_registered)
    as (c & d' & d'' & H1 & H2 & Hsame & _).
  exists c, d', d''. split; [exact H1|]. split; [exact H2|exact Hsame].
Defined.

Lemma create_then_list_witness :
  exists c d',
    run_request (repository_contacts.create Sample.alice Sample.body)
      Sample.clock Sample.store = (Return c, d') /\
    run_request (repository_contacts.get_contacts Sample.alice) Sample.year_end d'
      = (Return [Sample.taras; c], d').
Proof.
  destruct (@create_then_list Sample.store Sample.clock Sample.year_end Sample.alice
              Sample.body sample_store_ok sample_users_ok sample_alice_registered)
    as (c & d' & before & H1 & H2 & H3).
  exists c, d'. split; [exact H1|].
  rewrite (@get_contacts_listing Sample.store Sample.year_end Sample.alice
             sample_users_ok sample_alice_registered) in H2.
  injection H2 as <-. exact H3.
Defined.

Lemma days_to_next_birthday_in_range_witness :
  days_to_next_birthday_at Sample2.june Sample2.before_midnight Sample2.before_midnight
    Sample2.after_midnight = Return (-1).
Proof.
  refine (proj1 (proj2 (@days_to_next_birthday_in_range Sample2.june
                          Sample2.before_midnight Sample2.before_midnight
                          Sample2.after_midnight eq_refl eq_refl eq_refl eq_refl
                          eq_refl eq_refl _))
            (mk_datetime 2023 6 1 0 0 0 0) eq_refl eq_refl eq_refl).
  vm_compute. discriminate.
Defined.

Lemma leap_day_birthday_mostly_raises_witness :
  run_request (days_to_next_birthday Sample2.leap) Sample.clock Sample2.store
  = (Raise ValueError, Sample2.store).
Proof.
  exact (proj1 (@leap_day_birthday_mostly_raises Sample2.leap Sample.clock Sample2.store
                  eq_refl eq_refl eq_refl eq_refl)
           (or_introl eq_refl)).
Defined.

Lemma on_the_birthday_a_year_is_left_witness :
  exists n,
    run_request (days_to_next_birthday Sample2.june) Sample.clock Sample2.store
      = (Return n, Sample2.store) /\ (n = 364 \/ n = 365).
Proof.
  exact (@on_the_birthday_a_year_is_left Sample2.june Sample.clock Sample2.store
           eq_refl eq_refl eq_refl eq_refl eq_refl eq_refl (@not_leap_day 6 1 eq_refl)).
Defined.

Lemma next_week_birthday_is_found_witness :
  exists found,
    run_request (routes.get_contacts' Sample.alice) Sample.clock Sample2.store
      = (Return found, Sample2.store) /\ In Sample2.week found.
Proof.
  assert (Hno : ~ (month (today Sample.clock) = 12 /\ 25 <= day (today Sample.clock)))
    by (intros [H _]; discriminate H).
  assert (Hk : (7 <= 7)%nat) by apply le_n.
  exact (@next_week_birthday_is_found Sample2.store Sample.clock Sample.alice Sample2.week
           7 (mk_datetime 2023 6 8 10 0 0 0) eq_refl Hno sample2_alice_registered
           sample2_alice_owns_week Hk eq_refl eq_refl eq_refl).
Defined.

Lemma next_week_birthdays_are_a_calendar_window_witness :
  exists found,
    run_request (routes.get_contacts' Sample.alice) Sample.clock Sample2.store
      = (Return found, Sample2.store) /\
    In Sample2.june found /\ ~ In Sample.taras found.
Proof.
  destruct (@next_week_birthdays_are_a_calendar_window Sample2.store Sample.clock
              Sample.alice (mk_datetime 2023 6 8 10 0 0 0) eq_refl eq_refl
              sample2_birthdays_in_range) as (found & Hrun & Hmem).
  exists found. split; [exact Hrun|]. split.
  - apply Hmem. split; [exact sample2_alice_owns_june|].
    split; [exact sample2_alice_registered|]. split; reflexivity.
  - intros Hin. apply Hmem in Hin. destruct Hin as (_ & _ & Hlo & _). discriminate Hlo.
Defined.

Lemma ids_below_one_are_refused_witness :
  run_request (routes.get_contact 0 Sample.alice) Sample.clock Sample.store
  = (Raise RequestValidationError, Sample.store).
Proof.
  exact (proj1 (@ids_below_one_are_refused Sample.store Sample.clock Sample.alice
                  Sample.body 0 eq_refl)).
Defined.

Lemma get_response_carries_the_row_witness :
  exists c d' r,
    run_request (repository_contacts.create Sample.alice Sample.body)
      Sample.clock Sample.store = (Return c, d') /\
    run_request (response_model (routes.get_contact (Contact.id c) Sample.alice))
      Sample.year_end d' = (Return r, d') /\
    ContactResponse.id r = 3 /\
    ContactResponse.firstname r = "Ivan".
Proof.
  destruct (@get_response_carries_the_row Sample.store Sample.clock Sample.year_end
              Sample.alice Sample.body sample_store_ok sample_alice_registered
              eq_refl eq_refl (@not_leap_day 8 27 eq_refl) eq_refl)
    as (c & d' & r & Hc & Hrun & Hid & Hfn & _).
  exists c, d', r. split; [exact Hc|]. split; [exact Hrun|]. split; [exact Hid|exact Hfn].
Defined.

Lemma leap_day_contact_breaks_the_list_witness :
  run_request (response_model_list (routes.get_contacts Sample.alice))
    Sample.clock Sample2.store = (Raise ValueError, Sample2.store).
Proof.
  exact (proj1 (@leap_day_contact_breaks_the_list Sample2.store Sample.clock Sample.alice
                  Sample2.leap sample2_alice_registered sample2_alice_owns_leap
                  eq_refl eq_refl eq_refl)).
Defined.

Lemma upgrade_then_downgrade_witness :
  exists s1,
    Migration.upgrade Sample2.empty_schema = Migration.Done s1 /\
    Migration.downgrade s1 = Migration.Done Sample2.empty_schema.
Proof.
  destruct (@upgrade_then_downgrade Sample2.empty_schema sample_schema_untouched)
    as (s1 & Hup & _ & Hdown & _).
  exists s1. split; [exact Hup|exact Hdown].
Defined.

Lemma sample2_week_differs : Sample2.week <> Sample2.june.
Proof. discriminate. Qed.

Lemma update_can_duplicate_an_address_witness :
  exists c' d',
    run_request (routes.update_contact
                   (ContactModel.mk "June" "First" (Sample.at_midnight 1990 6 1)
                      "+380504444444" "week@example.com" "")
                   4 Sample.alice) Sample.clock Sample2.store = (Return c', d') /\
    owns d' Sample.alice c' /\ owns d' Sample.alice Sample2.week /\
    Contact.email c' = "week@example.com".
Proof.
  destruct (@update_can_duplicate_an_address Sample2.store Sample.clock Sample.alice
              Sample2.june Sample2.week
              (ContactModel.mk "June" "First" (Sample.at_midnight 1990 6 1)
                 "+380504444444" "week@example.com" "")
              sample2_store_ok sample2_alice_registered sample2_alice_owns_june
              sample2_alice_owns_week sample2_week_differs eq_refl)
    as (c' & d' & Hrun & Ho1 & Ho2 & _ & Hmail).
  exists c', d'. split; [exact Hrun|]. split; [exact Ho1|]. split; [exact Ho2|exact Hmail].
Defined.

Lemma days_are_one_less_than_the_calendar_witness :
  run_request (days_to_next_birthday Sample2.week) Sample.clock Sample2.store
  = (Return 6, Sample2.store).
Proof.
  exact (@days_are_one_less_than_the_calendar Sample2.week Sample.clock Sample2.store
           eq_refl eq_refl eq_refl eq_refl eq_refl eq_refl).
Defined.
